(** * The indexing server of the p2p file-sharing network

    A shallow embedding of [indexing_server/file_index.py],
    [indexing_server/replication_service.py],
    [indexing_server/registry_service.py],
    [indexing_server/search_service.py] and of the message constructor of
    [common/protocol.py], followed by the properties of the directory
    service that the specification states about them.  It goes on with the
    code around them: the request builders and the framing of
    [common/protocol.py], the lookup of [common/config_manager.py], the
    port rule of [peer/peer.py], and the transfer of a file between two
    peers, [peer/file_manager.py], [peer/peer_server.py] and
    [peer/peer_client.py].

    Conventions of the embedding.
    - A method [m(self, a, b)] that mutates the index is a function
      [m s a b] returning the new index; every method body runs under
      [self._lock], so one call is one transition of the index.
    - A Python [dict] whose iteration order is observable (the file index,
      JSON objects) is an association list in insertion order; the peer
      registry, which the modelled code only reads by key, is a [gmap].
    - Values that arrive from the wire are JSON values; [isinstance] tests,
      truthiness and [.get] on them are modelled as Python evaluates them,
      and a raised exception is an outcome of its own.
    - A connected socket is the list of the segments that are still to
      arrive; [recv] takes from the first one, so a statement about every
      list of segments is a statement about every way the bytes of a
      stream can arrive.  A loop that reads until the stream ends is
      defined by recursion on the bytes left. *)

From Stdlib Require Import ZArith Ascii String Lia.
From stdpp Require Import gmap strings list option.
From Equations Require Import Equations.

Local Open Scope string_scope.
Local Open Scope list_scope.
Local Open Scope Z_scope.

#[local] Set Warnings "-register-all".

(** ** Python values *)

(** What [json.loads] produces: [None], [bool], [int], [str], [list] and
    [dict] with [str] keys.  Numbers are the Python [int]s; a number
    written with a fraction or an exponent is not part of the model. *)
Inductive json : Type :=
| JNull
| JBool (b : bool)
| JNum (n : Z)
| JStr (s : string)
| JArr (items : list json)
| JObj (fields : list (string * json)).

(** A [Dict[str, Any]], keys in insertion order. *)
Abbreviation obj := (list (string * json)).

(** [bool(v)]: the truth value Python gives to [v] in [if v], [not v] and
    [v or w]. *)
Definition truthy (v : json) : bool :=
  match v with
  | JNull => false
  | JBool b => b
  | JNum n => negb (n =? 0)
  | JStr s => negb (String.eqb s "")
  | JArr items => match items with [] => false | _ => true end
  | JObj fields => match fields with [] => false | _ => true end
  end.

(** [a or b] *)
Definition py_or (a b : json) : json := if truthy a then a else b.

Inductive exn : Type :=
| AttributeError
| TypeError
| ValueError.

(** How a call ends.  [Untyped] marks a run that hands a hashable value
    that is not a [str] (a number, [True]) to a [FileIndex] method whose
    parameter is annotated [str]; the index of this development is keyed by
    [str], so such a run is not followed further. *)
Inductive outcome (A : Type) : Type :=
| Ok (a : A)
| Raise (e : exn)
| Untyped.
Arguments Ok {A} a.
Arguments Raise {A} e.
Arguments Untyped {A}.

Definition bind {A B : Type} (m : outcome A) (k : A -> outcome B) : outcome B :=
  match m with
  | Ok a => k a
  | Raise e => Raise e
  | Untyped => Untyped
  end.

Notation "'let*' x := m 'in' k" := (bind m (fun x => k))
  (at level 10, x name, m at level 200, k at level 200).

(** ** Dictionaries in insertion order *)

Section PyDict.
Context {V : Type}.

(** [d.get(k)] *)
Fixpoint dict_get (d : list (string * V)) (k : string) : option V :=
  match d with
  | [] => None
  | (k', v) :: rest => if decide (k' = k) then Some v else dict_get rest k
  end.

(** [d[k] = v]: an existing key keeps its position, a new one goes last. *)
Fixpoint dict_set (d : list (string * V)) (k : string) (v : V) : list (string * V) :=
  match d with
  | [] => [(k, v)]
  | (k', v') :: rest =>
      if decide (k' = k) then (k', v) :: rest else (k', v') :: dict_set rest k v
  end.

(** [del d[k]] *)
Fixpoint dict_del (d : list (string * V)) (k : string) : list (string * V) :=
  match d with
  | [] => []
  | (k', v') :: rest =>
      if decide (k' = k) then rest else (k', v') :: dict_del rest k
  end.

(** [d.keys()] *)
Definition dict_keys (d : list (string * V)) : list string := d.*1.

(** [{**d, **e}]: the items of [e] written into [d] one after the other. *)
Definition dict_update (d e : list (string * V)) : list (string * V) :=
  fold_left (fun acc kv => dict_set acc kv.1 kv.2) e d.

(** The representation invariant of a Python dict: no key twice. *)
Definition dict_wf (d : list (string * V)) : Prop := NoDup (dict_keys d).
End PyDict.

(** [v.get(k, dflt)] on a value from the wire: only a [dict] has [.get]. *)
Definition py_get (v : json) (k : string) (dflt : json) : outcome json :=
  match v with
  | JObj fields => Ok (default dflt (dict_get fields k))
  | _ => Raise AttributeError
  end.

(** ** indexing_server/file_index.py *)

(** One element of a serving list: [{"peer_id": str, "meta": dict}]. *)
Record entry : Type := mk_entry { e_peer_id : string; e_meta : obj }.

(** One element of [get_peers_for_file]:
    [{"peer_id": pid, "peer": reg, "meta": meta}]. *)
Record enriched : Type := mk_enriched { r_peer_id : string; r_peer : obj; r_meta : obj }.

Record FileIndex : Type := mk_index {
  file_index : list (string * list entry);
  peer_registry : gmap string obj
}.

(** [FileIndex()] *)
Definition init : FileIndex := {| file_index := []; peer_registry := ∅ |}.

(** [{"peer_id": peer_id, **peer_info}] *)
Definition registry_record (peer_id : string) (peer_info : obj) : obj :=
  dict_update [("peer_id", JStr peer_id)] peer_info.

Definition add_peer (s : FileIndex) (peer_id : string) (peer_info : obj) : FileIndex :=
  {| file_index := file_index s;
     peer_registry := <[peer_id := registry_record peer_id peer_info]> (peer_registry s) |}.

(** [[p for p in peers if p.get("peer_id") != peer_id]] *)
Definition without_peer (peer_id : string) (peers : list entry) : list entry :=
  filter (fun p => e_peer_id p ≠ peer_id) peers.

(** The two statements that [remove_peer] and [remove_file] share:
    [file_index[fname] = kept] and then [del file_index[fname]] when the
    stored list is empty. *)
Definition store_or_drop (fi : list (string * list entry)) (fname : string)
    (kept : list entry) : list (string * list entry) :=
  let fi' := dict_set fi fname kept in
  match kept with
  | [] => dict_del fi' fname
  | _ :: _ => fi'
  end.

(** One turn of the loop of [remove_peer], over an item of the snapshot
    [list(self.file_index.items())]. *)
Definition sweep (peer_id : string) (fi : list (string * list entry))
    (item : string * list entry) : list (string * list entry) :=
  store_or_drop fi item.1 (without_peer peer_id item.2).

Definition remove_peer (s : FileIndex) (peer_id : string) : FileIndex :=
  {| file_index := fold_left (sweep peer_id) (file_index s) (file_index s);
     peer_registry := delete peer_id (peer_registry s) |}.

Definition get_peer (s : FileIndex) (peer_id : string) : option obj :=
  peer_registry s !! peer_id.

(** [any(p.get("peer_id") == peer_id for p in peers)] *)
Definition serves (peer_id : string) (peers : list entry) : bool :=
  existsb (fun p => bool_decide (e_peer_id p = peer_id)) peers.

Definition add_file (s : FileIndex) (peer_id file_name : string) (meta : option obj)
    : FileIndex :=
  let entry := {| e_peer_id := peer_id; e_meta := default [] meta |} in
  (* peers = self.file_index.setdefault(file_name, []) *)
  let fi := match dict_get (file_index s) file_name with
            | Some _ => file_index s
            | None => dict_set (file_index s) file_name []
            end in
  let peers := default [] (dict_get fi file_name) in
  if serves peer_id peers
  then {| file_index := fi; peer_registry := peer_registry s |}
  else {| file_index := dict_set fi file_name (peers ++ [entry]);
          peer_registry := peer_registry s |}.

Definition remove_file (s : FileIndex) (peer_id file_name : string) : FileIndex :=
  match dict_get (file_index s) file_name with
  | None | Some [] => s
  | Some peers =>
      {| file_index := store_or_drop (file_index s) file_name (without_peer peer_id peers);
         peer_registry := peer_registry s |}
  end.

(** The element that the loop of [get_peers_for_file] appends for [p]. *)
Definition enrich (s : FileIndex) (p : entry) : enriched :=
  {| r_peer_id := e_peer_id p;
     r_peer := default [] (peer_registry s !! e_peer_id p);
     r_meta := e_meta p |}.

(** [self.file_index.get(file_name, [])]: the serving list of a file. *)
Definition servings (s : FileIndex) (file_name : string) : list entry :=
  default [] (dict_get (file_index s) file_name).

Definition get_peers_for_file (s : FileIndex) (file_name : string) : list enriched :=
  map (enrich s) (servings s file_name).

Definition list_files (s : FileIndex) : list string := dict_keys (file_index s).

(** ** indexing_server/replication_service.py *)

(** [{"peer_id": str, "host": ..., "port": int}] *)
Record source : Type := mk_source { src_peer_id : string; src_host : json; src_port : Z }.

(** [{"file_name": str, "source": {...}}] *)
Record task : Type := mk_task { t_file_name : string; t_source : source }.

(** What one turn of a scanning loop does with its file. *)
Inductive turn : Type :=
| Continue
| Append (t : task).

Section Services.
(** [int(s)] for a [str] [s]: the integer it denotes, [None] when Python
    raises [ValueError].  The handlers only pass the result on, so the
    builtin's parsing of numerals is left open. *)
Variable int_of_str : string -> option Z.

(** [int(v)] *)
Definition py_int (v : json) : outcome Z :=
  match v with
  | JBool b => Ok (Z.b2z b)
  | JNum n => Ok n
  | JStr s => match int_of_str s with Some n => Ok n | None => Raise ValueError end
  | JNull | JArr _ | JObj _ => Raise TypeError
  end.

(** The [ReplicationService] object: the shared index is passed to each
    method, [replication_factor] is the field set by [__init__]. *)
Variable replication_factor : Z.

Definition check_replication (s : FileIndex) (file_name : string) : bool :=
  replication_factor <=? Z.of_nat (length (get_peers_for_file s file_name)).

(** [any(p.get("peer_id") == target_peer_id for p in ...)] *)
Definition among (target_peer_id : string) (peers : list enriched) : bool :=
  existsb (fun p => bool_decide (r_peer_id p = target_peer_id)) peers.

(** The body of the loop of [build_replication_tasks_for_peer] for the
    file [fname], up to and including [tasks.append]. *)
Definition scan_file (s : FileIndex) (target_peer_id fname : string) : outcome turn :=
  if replication_factor <=? Z.of_nat (length (get_peers_for_file s fname)) then Ok Continue
  else if among target_peer_id (get_peers_for_file s fname) then Ok Continue
  else
    match get_peers_for_file s fname with
    | [] => Ok Continue
    | source :: _ =>
        let peer_info := r_peer source in
        let host := py_or (default JNull (dict_get peer_info "host"))
                          (default JNull (dict_get peer_info "ip")) in
        let port := default JNull (dict_get peer_info "port") in
        if negb (truthy host) || negb (truthy port) then Ok Continue
        else
          let* port_int := py_int port in
          Ok (Append {| t_file_name := fname;
                        t_source := {| src_peer_id := r_peer_id source;
                                       src_host := host;
                                       src_port := port_int |} |})
    end.

(** The [for fname in self.index.list_files()] loop with its [break]. *)
Fixpoint scan_files (s : FileIndex) (target_peer_id : string) (max_tasks : Z)
    (files : list string) (tasks : list task) : outcome (list task) :=
  match files with
  | [] => Ok tasks
  | fname :: rest =>
      let* t := scan_file s target_peer_id fname in
      match t with
      | Continue => scan_files s target_peer_id max_tasks rest tasks
      | Append t =>
          let tasks' := tasks ++ [t] in
          if max_tasks <=? Z.of_nat (length tasks') then Ok tasks'
          else scan_files s target_peer_id max_tasks rest tasks'
      end
  end.

Definition build_replication_tasks_for_peer (s : FileIndex) (target_peer_id : string)
    (max_tasks : Z) : outcome (list task) :=
  scan_files s target_peer_id max_tasks (list_files s) [].

(** ** common/protocol.py *)

(** [ProtocolHandler.create_message]; [now] is the reading
    [int(time.time() * 1000)] of the clock, [request_id] is never passed
    by the handlers, and [payload or {}] is [payload]. *)
Definition create_message (now : Z) (message_type : string) (payload : obj)
    (peer_id : json) : obj :=
  [("type", JStr message_type);
   ("timestamp", JNum now);
   ("version", JStr "1.0");
   ("peer_id", peer_id);
   ("request_id", JNull);
   ("payload", JObj payload)].

(** ** indexing_server/registry_service.py *)

(** A value used where [FileIndex] expects a [str] key: a [list] or a
    [dict] is unhashable and the dictionary operation raises. *)
Definition as_str (v : json) : outcome string :=
  match v with
  | JStr s => Ok s
  | JArr _ | JObj _ => Raise TypeError
  | JNull | JBool _ | JNum _ => Untyped
  end.

(** [meta if isinstance(meta, dict) else {}] *)
Definition dict_or_empty (meta : json) : obj :=
  match meta with
  | JObj m => m
  | _ => []
  end.

(** [{k: v for k, v in item.items() if k not in ("name", "file_name")}] *)
Definition item_meta (item : obj) : obj :=
  filter (fun kv => kv.1 ≠ "name" ∧ kv.1 ≠ "file_name") item.

Definition task_json (t : task) : json :=
  JObj [("file_name", JStr (t_file_name t));
        ("source", JObj [("peer_id", JStr (src_peer_id (t_source t)));
                         ("host", src_host (t_source t));
                         ("port", JNum (src_port (t_source t)))])].

(** [for fname, meta in files.items()] *)
Fixpoint register_mapping (s : FileIndex) (peer_id : string) (files : obj)
    (registered : Z) : FileIndex * Z :=
  match files with
  | [] => (s, registered)
  | (fname, meta) :: rest =>
      register_mapping (add_file s peer_id fname (Some (dict_or_empty meta)))
                       peer_id rest (registered + 1)
  end.

(** [for item in files]; an exception leaves the index as the earlier
    turns made it. *)
Fixpoint register_items (s : FileIndex) (peer_id : string) (files : list json)
    (registered : Z) : FileIndex * outcome Z :=
  match files with
  | [] => (s, Ok registered)
  | JObj item :: rest =>
      let fname := py_or (default JNull (dict_get item "name"))
                         (default JNull (dict_get item "file_name")) in
      let meta := item_meta item in
      if truthy fname then
        match as_str fname with
        | Ok f => register_items (add_file s peer_id f (Some meta)) peer_id rest
                                 (registered + 1)
        | Raise e => (s, Raise e)
        | Untyped => (s, Untyped)
        end
      else register_items s peer_id rest registered
  | _ :: rest => register_items s peer_id rest registered
  end.

(** The [# Register files] block. *)
Definition register_files (s : FileIndex) (peer_id : string) (files : json)
    : FileIndex * outcome Z :=
  match files with
  | JObj m => let '(s', n) := register_mapping s peer_id m 0 in (s', Ok n)
  | JArr l => register_items s peer_id l 0
  | _ => (s, Ok 0)
  end.

(** [final_port]: [int(intended_port)] unless it is [None] or raises. *)
Definition final_port_of (intended_port : json) (client_port : Z) : Z :=
  match intended_port with
  | JNull => client_port
  | _ => match py_int intended_port with
         | Ok n => n
         | _ => client_port
         end
  end.

(** [resp_payload] of a successful registration. *)
Definition registry_ok (registered : Z) (tasks : list task) : obj :=
  match tasks with
  | [] => [("status", JStr "ok");
           ("registered_files", JNum registered);
           ("replication_required", JBool false)]
  | _ :: _ => [("status", JStr "ok");
               ("registered_files", JNum registered);
               ("replication_tasks", JArr (map task_json tasks));
               ("replication_required", JBool true)]
  end.

Definition registry_error : obj :=
  [("status", JStr "error"); ("error", JStr "missing peer_id")].

(** [peer_record]: [{**peer_info, "host": final_host, "port": final_port}],
    the declared host and port before the address of the socket. *)
Definition peer_record_of (peer_info : obj) (client_addr : string * Z) : obj :=
  let '(client_host, client_port) := client_addr in
  let intended_host := default JNull (dict_get peer_info "host") in
  let intended_port := default JNull (dict_get peer_info "port") in
  let final_port := final_port_of intended_port client_port in
  let final_host := if truthy intended_host then intended_host else JStr client_host in
  dict_set (dict_set peer_info "host" final_host) "port" (JNum final_port).

(** [RegistryService.register_peer]: the index after the call and how the
    call ends. *)
Definition register_peer (s : FileIndex) (now : Z) (message : obj)
    (client_addr : string * Z) : FileIndex * outcome obj :=
  let peer_id := default JNull (dict_get message "peer_id") in
  let payload := default (JObj []) (dict_get message "payload") in
  match payload with
  | JObj payload =>
      let files := default (JObj []) (dict_get payload "files") in
      let peer_info := default (JObj []) (dict_get payload "peer") in
      if negb (truthy peer_id) then
        (s, Ok (create_message now "REGISTRY_RESPONSE" registry_error peer_id))
      else
        match peer_info with
        | JObj peer_info =>
            let peer_record := peer_record_of peer_info client_addr in
            match as_str peer_id with
            | Ok pid =>
                let s1 := add_peer s pid peer_record in
                match register_files s1 pid files with
                | (s2, Ok registered) =>
                    (s2,
                     let* tasks := build_replication_tasks_for_peer s2 pid 5 in
                     Ok (create_message now "REGISTRY_RESPONSE"
                           (registry_ok registered tasks) peer_id))
                | (s2, Raise e) => (s2, Raise e)
                | (s2, Untyped) => (s2, Untyped)
                end
            | Raise e => (s, Raise e)
            | Untyped => (s, Untyped)
            end
        | _ => (s, Raise AttributeError)
        end
  | _ => (s, Raise AttributeError)
  end.

(** ** indexing_server/search_service.py *)

Definition enriched_json (p : enriched) : json :=
  JObj [("peer_id", JStr (r_peer_id p));
        ("peer", JObj (r_peer p));
        ("meta", JObj (r_meta p))].

Definition search_error : obj :=
  [("status", JStr "error"); ("error", JStr "missing file_name"); ("results", JArr [])].

Definition search_ok (file_name : json) (peers : list enriched) : obj :=
  [("status", JStr "ok"); ("file_name", file_name);
   ("results", JArr (map enriched_json peers))].

(** [SearchService.search]; it reads the index and leaves it as it is. *)
Definition search (s : FileIndex) (now : Z) (message : obj) : outcome obj :=
  let* payload := Ok (default (JObj []) (dict_get message "payload")) in
  let* query := py_get payload "query" (JObj []) in
  let* file_name := match query with
                    | JStr _ => Ok query
                    | _ => py_get query "file_name" JNull
                    end in
  let* resp := (if negb (truthy file_name) then Ok search_error
                else
                  let* f := as_str file_name in
                  Ok (search_ok file_name (get_peers_for_file s f))) in
  Ok (create_message now "SEARCH_RESPONSE" resp
        (default JNull (dict_get message "peer_id"))).
End Services.

(** ** Histories of the index *)

(** The mutating calls of [FileIndex]. *)
Inductive op : Type :=
| AddPeer (peer_id : string) (peer_info : obj)
| RemovePeer (peer_id : string)
| AddFile (peer_id file_name : string) (meta : option obj)
| RemoveFile (peer_id file_name : string).

Definition exec (s : FileIndex) (o : op) : FileIndex :=
  match o with
  | AddPeer peer_id peer_info => add_peer s peer_id peer_info
  | RemovePeer peer_id => remove_peer s peer_id
  | AddFile peer_id file_name meta => add_file s peer_id file_name meta
  | RemoveFile peer_id file_name => remove_file s peer_id file_name
  end.

(** The indexes that a sequence of calls builds from [FileIndex()]. *)
Inductive reachable : FileIndex -> Prop :=
| reachable_init : reachable init
| reachable_exec s o : reachable s -> reachable (exec s o).

(** What holds of the file index between two calls: its keys are distinct,
    as in any [dict], and no serving list is empty. *)
Definition index_inv (s : FileIndex) : Prop :=
  dict_wf (file_index s) ∧ Forall (fun item => item.2 ≠ []) (file_index s).

(** The file index that the loop of [remove_peer] arrives at: every serving
    list without the peer, the files whose list became empty dropped. *)
Definition swept (peer_id : string) (fi : list (string * list entry))
    : list (string * list entry) :=
  omap (fun item => match without_peer peer_id item.2 with
                    | [] => None
                    | kept => Some (item.1, kept)
                    end) fi.

(** ** Sample indexes *)

Definition peer1_info : obj :=
  [("peer_id", JStr "peer1"); ("host", JStr "127.0.0.1"); ("port", JNum 7100)].

(** [peer1] registered and serving [a.txt], [b.bin] and [c.dat]. *)
Definition index_abc : FileIndex :=
  exec (exec (exec (exec init (AddPeer "peer1" peer1_info))
                   (AddFile "peer1" "a.txt" (Some [("size_bytes", JNum 12)])))
             (AddFile "peer1" "b.bin" None))
       (AddFile "peer1" "c.dat" None).

(** A serving of a peer that no [add_peer] has registered. *)
Definition index_dangling : FileIndex := add_file init "peer1" "a.txt" None.

(** ** Messages *)

(** A message of type [ty] laid out as the docstring of [ProtocolHandler]
    has it: the ["payload"] field holds an object (the handlers read it
    with [message.get("payload", {})], so it may also be left out). *)
Definition is_message (ty : string) (message : obj) : Prop :=
  dict_get message "type" = Some (JStr ty) ∧
  match dict_get message "payload" with
  | None | Some (JObj _) => True
  | Some _ => False
  end.

(** An element of a [files] list that is not an object, or is an object
    with neither a ["name"] nor a ["file_name"] key. *)
Definition nameless (item : json) : Prop :=
  match item with
  | JObj fields => dict_get fields "name" = None ∧ dict_get fields "file_name" = None
  | _ => True
  end.

(** An [int_of_str] for the examples: plain decimal numerals. *)
Fixpoint decimal_digits (s : string) (acc : Z) : option Z :=
  match s with
  | EmptyString => Some acc
  | String c rest =>
      let n := Z.of_nat (Ascii.nat_of_ascii c) - 48 in
      if (0 <=? n) && (n <=? 9) then decimal_digits rest (10 * acc + n) else None
  end.

Definition decimal (s : string) : option Z :=
  match s with
  | EmptyString => None
  | _ => decimal_digits s 0
  end.

(** What [PeerClient.register] sends: [create_message("REGISTRY_REQUEST",
    {"files": files, "peer": {"peer_id", "host", "port"}}, peer_id)]. *)
Definition registry_request (now : Z) (peer_id : string) (files : json)
    (host : string) (port : Z) : obj :=
  create_message now "REGISTRY_REQUEST"
    [("files", files);
     ("peer", JObj [("peer_id", JStr peer_id); ("host", JStr host); ("port", JNum port)])]
    (JStr peer_id).

(** [peer1] at 127.0.0.1:7100 serving [f.bin], as its registration with
    [{"f.bin": {}}] leaves the empty index. *)
Definition index_f : FileIndex :=
  (register_peer decimal 2 init 0
     (registry_request 0 "peer1" (JObj [("f.bin", JObj [])]) "127.0.0.1" 7100)
     ("127.0.0.1", 50000)).1.

(** A search whose query is [null]. *)
Definition search_null : obj :=
  create_message 0 "SEARCH_REQUEST" [("query", JNull)] (JStr "peer2").

(** No peer twice in a serving list. *)
Definition servings_unique (s : FileIndex) : Prop :=
  Forall (fun item => NoDup (map e_peer_id item.2)) (file_index s).

(** [remove_file] of one peer for every listed file, in listing order. *)
Definition remove_everywhere (s : FileIndex) (peer_id : string) : FileIndex :=
  fold_left (fun s' fname => remove_file s' peer_id fname) (list_files s) s.

(** A registry record whose ["port"], when it has one, is an [int]; the
    records that [register_peer] writes are such. *)
Definition int_port (record : obj) : Prop :=
  dict_get record "port" = None ∨ ∃ n, dict_get record "port" = Some (JNum n).

Definition ports_numeric (s : FileIndex) : Prop :=
  ∀ pid record, peer_registry s !! pid = Some record → int_port record.

(** ** The request builders of common/protocol.py *)

(** [make_registry_request(peer_id, files)] *)
Definition make_registry_request (now : Z) (peer_id : string) (files : obj) : obj :=
  create_message now "REGISTRY_REQUEST" [("files", JObj files)] (JStr peer_id).

(** [make_search_request(peer_id, query)]: a query that is not a [dict] is
    wrapped as [{"file_name": query}]. *)
Definition make_search_request (now : Z) (peer_id : string) (query : json) : obj :=
  let q := match query with
           | JObj _ => query
           | _ => JObj [("file_name", query)]
           end in
  create_message now "SEARCH_REQUEST" [("query", q)] (JStr peer_id).

(** One index extends another: every serving is still there, the listed
    files are still listed first and in the same order. *)
Definition extends (s s' : FileIndex) : Prop :=
  (∀ f x, x ∈ servings s f → x ∈ servings s' f) ∧ list_files s `prefix_of` list_files s'.

(** ** common/config_manager.py and PeerClient._safe_get *)

(** [s.split(".")] *)
Fixpoint split_dots (s : string) : list string :=
  match s with
  | EmptyString => [""]
  | String c rest =>
      if Ascii.eqb c "."%char then "" :: split_dots rest
      else match split_dots rest with
           | part :: parts => String c part :: parts
           | [] => [String c ""]
           end
  end.

(** The loop that [ConfigManager.get] and [PeerClient._safe_get] share:
    [if isinstance(cur, dict) and k in cur: cur = cur[k]], and otherwise
    the default is returned ([None] here). *)
Fixpoint walk (node : json) (keys : list string) : option json :=
  match keys with
  | [] => Some node
  | key :: keys' =>
      match node with
      | JObj fields =>
          match dict_get fields key with
          | Some v => walk v keys'
          | None => None
          end
      | _ => None
      end
  end.

(** [ConfigManager.get(key_path, default)] on the loaded [_config]. *)
Definition config_get (config : json) (key_path : string) (dflt : json) : json :=
  if String.eqb key_path "" then dflt
  else default dflt (walk config (split_dots key_path)).

(** [PeerClient._safe_get(d, *keys, default=dflt)] *)
Definition safe_get (d : json) (keys : list string) (dflt : json) : json :=
  default dflt (walk d keys).

(** Whether a key has a dot in it. *)
Fixpoint has_dot (s : string) : bool :=
  match s with
  | EmptyString => false
  | String c rest => Ascii.eqb c "."%char || has_dot rest
  end.

(** ** Peer._compute_port (peer/peer.py, peer/headless.py) *)

Definition is_digit (c : Ascii.ascii) : bool :=
  (48 <=? Z.of_nat (Ascii.nat_of_ascii c)) && (Z.of_nat (Ascii.nat_of_ascii c) <=? 57).

(** The longest run of digits at the front of a list of characters. *)
Fixpoint leading_digits (l : list Ascii.ascii) : list Ascii.ascii :=
  match l with
  | c :: rest => if is_digit c then c :: leading_digits rest else []
  | [] => []
  end.

(** Group 1 of [re.search(r"(\d+)$", peer_id)], the empty string when there
    is no match: the longest run of digits that ends the string, where [$]
    also matches just before a newline that ends the string.  Strings are
    taken over the code points below 256, where [\d] is [0-9]. *)
Definition numeric_suffix (peer_id : string) : string :=
  let reversed := rev (list_ascii_of_string peer_id) in
  let run := match reversed with
             | c :: before =>
                 if Ascii.eqb c "010"%char then leading_digits before
                 else leading_digits reversed
             | [] => []
             end in
  string_of_list_ascii (rev run).

Section ComputePort.
Variable int_of_str : string -> option Z.

Definition compute_port (peer_id : string) (base_port : Z) : Z :=
  match numeric_suffix peer_id with
  | EmptyString => base_port
  | digits =>
      match int_of_str digits with
      | Some idx => base_port + Z.max (idx - 1) 0
      | None => base_port
      end
  end.
End ComputePort.

(** ** Byte streams: sockets and files *)

Abbreviation bytes := (list Byte.byte).

(** The newline byte, [b"\n"]. *)
Definition newline : Byte.byte := Byte.x0a.

(** A connected socket as its reader sees it: the segments still to
    arrive, in order, each with at least one byte; when none is left the
    other side has closed.  Timeouts and resets are not modelled. *)
Definition pending (sock : list bytes) : nat := length (concat sock).

(** [sock.recv(n)]: at most [n] bytes of the first segment, [b""] when the
    other side has closed or [n] is 0; a negative [n] raises [ValueError]. *)
Definition recv (n : Z) (sock : list bytes) : exn + bytes * list bytes :=
  if n <? 0 then inl ValueError
  else match sock with
       | [] => inr ([], [])
       | segment :: rest =>
           if Z.of_nat (length segment) <=? n then inr (segment, rest)
           else inr (take (Z.to_nat n) segment, drop (Z.to_nat n) segment :: rest)
       end.

(** Termination of the receiving loops: a [recv] that returns a byte
    leaves fewer bytes to arrive. *)
Ltac recv_consumes H :=
  match type of H with
  | recv ?n ?sock = _ =>
      unfold recv in H;
      destruct (n <? 0); [discriminate H|];
      destruct sock as [|segment rest]; [discriminate H|];
      destruct (Z.of_nat (length segment) <=? n);
      injection H as Hdata Hsock; subst;
      unfold pending; cbn [concat length]; rewrite ?length_app, ?length_drop;
      [ cbn [length]; lia
      | match goal with
        | Hd : take ?k ?seg = _ |- _ =>
            apply (f_equal (@length Byte.byte)) in Hd;
            rewrite length_take in Hd; cbn [length] in Hd; lia
        end ]
  end.

(** A value together with the equation that says where it came from. *)
Definition inspect {A : Type} (a : A) : {b : A | a = b} := exist _ a eq_refl.

(** ** peer/file_manager.py: reading and writing in chunks *)

(** The loop of [read_file_chunks] over the content of the opened file:
    [f.read(n)] gives the next [n] bytes for a positive [n], all that is
    left for a negative [n] and nothing for 0; the loop ends at the first
    empty read. *)
Equations? file_chunks (n : Z) (content : bytes) : list bytes
    by wf (length content) lt :=
  file_chunks n [] := [];
  file_chunks n (b :: content) with Z_lt_dec 0 n => {
    | left _ := take (Z.to_nat n) (b :: content)
                :: file_chunks n (drop (Z.to_nat n) (b :: content));
    | right _ with Z_lt_dec n 0 => {
        | left _ := [b :: content];
        | right _ := [] } }.
Proof. rewrite length_drop. simpl. lia. Qed.

(** [chunk_size or self._chunk_size()]: the configured size stands in for
    an argument that is [None] or 0. *)
Definition effective_chunk_size (configured : Z) (chunk_size : option Z) : Z :=
  match chunk_size with
  | Some n => if n =? 0 then configured else n
  | None => configured
  end.

(** [read_file_chunks(peer_id, file_name, chunk_size)] for a file with the
    given content. *)
Definition read_file_chunks (configured : Z) (chunk_size : option Z) (content : bytes)
    : list bytes :=
  file_chunks (effective_chunk_size configured chunk_size) content.

(** [write_file_chunks(dest_path, chunks)]: the content of the file
    written, the chunks up to the first empty one. *)
Fixpoint write_file_chunks (chunks : list bytes) : bytes :=
  match chunks with
  | [] => []
  | [] :: _ => []
  | chunk :: rest => chunk ++ write_file_chunks rest
  end.

(** ** peer/peer_client.py: the receiving loop *)

(** [read_n] of [_chunk_stream]:
    [chunk_size if not bytes_remaining else min(chunk_size, bytes_remaining)] *)
Definition read_size (chunk_size : Z) (bytes_remaining : option Z) : Z :=
  match bytes_remaining with
  | None => chunk_size
  | Some r => if r =? 0 then chunk_size else Z.min chunk_size r
  end.

(** The generator [_chunk_stream] of [download_file] and [replicate_file]:
    the chunks it yields and how it ends. *)
Equations? chunk_stream (chunk_size : Z) (bytes_remaining : option Z) (sock : list bytes)
    : list bytes * outcome unit by wf (pending sock) lt :=
  chunk_stream chunk_size bytes_remaining sock
    with inspect (recv (read_size chunk_size bytes_remaining) sock) => {
    | exist _ (inl e) _ := ([], Raise e);
    | exist _ (inr ([], _)) _ := ([], Ok tt);
    | exist _ (inr (b :: data, sock')) Hrecv with bytes_remaining => {
        | None :=
            let '(chunks, ending) := chunk_stream chunk_size None sock' in
            ((b :: data) :: chunks, ending);
        | Some r with Z_le_dec (r - Z.of_nat (length (b :: data))) 0 => {
            | left _ := ([b :: data], Ok tt);
            | right _ :=
                let '(chunks, ending) :=
                  chunk_stream chunk_size
                    (Some (r - Z.of_nat (length (b :: data)))) sock' in
                ((b :: data) :: chunks, ending) } } }.
Proof. all: recv_consumes Hrecv. Qed.

(** What [download_file] and [replicate_file] leave in the destination
    file once the metadata is read: [write_file_chunks(dest_path,
    _chunk_stream())], with [bytes_remaining = file_size if file_size > 0
    else None]. *)
Definition receive_file (file_size chunk_size : Z) (sock : list bytes)
    : bytes * outcome unit :=
  let bytes_remaining := if 0 <? file_size then Some file_size else None in
  let '(chunks, ending) := chunk_stream chunk_size bytes_remaining sock in
  (write_file_chunks chunks, ending).

(** ** common/protocol.py: framing *)

(** [joined.split(b"\n", 1)] when [b"\n" in joined]: the bytes before the
    first newline and the bytes after it. *)
Fixpoint split_line (joined : bytes) : option (bytes * bytes) :=
  match joined with
  | [] => None
  | b :: rest =>
      if Byte.eqb b newline then Some ([], rest)
      else match split_line rest with
           | Some (line, after) => Some (b :: line, after)
           | None => None
           end
  end.

(** How [receive_message] ends before it parses: with the line it read and
    the socket as it leaves it, with [ProtocolError("Connection closed
    while reading message")], or with an exception of [recv]. *)
Inductive received : Type :=
| Line (line : bytes) (sock : list bytes)
| ConnectionClosed
| Raised (e : exn).

(** The loop of [ProtocolHandler.receive_message]; [joined] is
    [b"".join(chunks)] of the turns before. *)
Equations? receive_line (joined : bytes) (sock : list bytes) : received
    by wf (pending sock) lt :=
  receive_line joined sock with inspect (recv 4096 sock) => {
    | exist _ (inl e) _ := Raised e;
    | exist _ (inr ([], _)) _ := ConnectionClosed;
    | exist _ (inr (b :: data, sock')) Hrecv with split_line (joined ++ b :: data) => {
        | Some (line, _) := Line line sock';
        | None := receive_line (joined ++ b :: data) sock' } }.
Proof. recv_consumes Hrecv. Qed.

(** ** Peer to peer: peer/peer_server.py and peer/peer_client.py *)

(** [v == s] for a [str] [s]. *)
Definition is_str (s : string) (v : json) : bool :=
  match v with
  | JStr t => String.eqb t s
  | _ => false
  end.

(** The loop of [PeerServer.handle_client] over the chunks of the file:
    it sends each chunk and stops at an empty one. *)
Fixpoint sent_chunks (chunks : list bytes) : list bytes :=
  match chunks with
  | [] => []
  | [] :: _ => []
  | chunk :: rest => chunk :: sent_chunks rest
  end.

(** What [ProtocolHandler.receive_message] gives: the message and the
    socket as it leaves it; an error of the message, [ProtocolError] for a
    connection closed or a line that is not JSON and [UnicodeDecodeError]
    for a line that is not UTF-8; or an exception of [recv]. *)
Inductive message_read : Type :=
| Message (message : json) (sock : list bytes)
| MessageError
| RecvError (e : exn).

(** How [download_file] and [replicate_file] end when no Python exception
    of the model is raised before the destination is opened: with the file
    written and the way the receiving loop ended, with the error of
    [receive_message], or with the [RuntimeError] they raise themselves. *)
Inductive fetched : Type :=
| Written (file : bytes) (ending : outcome unit)
| NoMessage
| RuntimeError.

Section Peers.
Variable int_of_str : string -> option Z.
(** [json.loads(line.decode("utf-8"))]: [None] when decoding or parsing
    raises. *)
Variable loads : bytes -> option json.
(** [json.dumps(message).encode("utf-8")] *)
Variable dumps : json -> bytes.
(** [str(v)], as an f-string formats it. *)
Variable py_str : json -> string.

(** [ProtocolHandler.serialize] *)
Definition serialize (message : obj) : bytes := dumps (JObj message) ++ [newline].

(** [ProtocolHandler.receive_message] *)
Definition receive_message (sock : list bytes) : message_read :=
  match receive_line [] sock with
  | Line line sock' =>
      match loads line with
      | Some message => Message message sock'
      | None => MessageError
      end
  | ConnectionClosed => MessageError
  | Raised e => RecvError e
  end.

(** [REPLICATE_RESPONSE if mtype == REPLICATE_REQUEST else OBTAIN_RESPONSE] *)
Definition response_type (mtype : json) : string :=
  if is_str "REPLICATE_REQUEST" mtype then "REPLICATE_RESPONSE" else "OBTAIN_RESPONSE".

(** The payloads of the responses of [handle_client]. *)
Definition unexpected_type (mtype : json) : obj :=
  [("status", JStr "error");
   ("error", JStr ("unexpected message type: " ++ py_str mtype))].

Definition missing_file_name : obj :=
  [("status", JStr "error"); ("error", JStr "missing file_name")].

Definition file_not_found (file_name : json) : obj :=
  [("status", JStr "error"); ("error", JStr "file_not_found"); ("file_name", file_name)].

Definition file_metadata (file_name : json) (file_size chunk_size : Z) : obj :=
  [("status", JStr "ok");
   ("file_name", file_name);
   ("file_size", JNum file_size);
   ("chunk_size", JNum chunk_size)].

(** [PeerServer.handle_client]: what the peer sends on the connection, one
    element for each [send_message] and [sendall], and how the call ends.
    [shared] is the content of the regular file that
    [os.path.join(shared_dir, file_name)] names, [chunk_size] the value
    that [_chunk_size()] gives; the connection is taken to carry all that
    is sent. *)
Definition handle_client (now : Z) (peer_id : string) (shared : string -> option bytes)
    (chunk_size : Z) (conn : list bytes) : outcome (list bytes) :=
  match receive_message conn with
  | MessageError | RecvError _ => Ok []
  | Message message _ =>
      let* mtype := py_get message "type" JNull in
      if negb (is_str "OBTAIN_REQUEST" mtype || is_str "REPLICATE_REQUEST" mtype) then
        Ok [serialize (create_message now "OBTAIN_RESPONSE" (unexpected_type mtype)
                         (JStr peer_id))]
      else
        let* payload := py_get message "payload" (JObj []) in
        let* file_name := py_get payload "file_name" JNull in
        if negb (truthy file_name) then
          Ok [serialize (create_message now (response_type mtype) missing_file_name
                           (JStr peer_id))]
        else
          match file_name with
          | JStr name =>
              match shared name with
              | None =>
                  Ok [serialize (create_message now (response_type mtype)
                                   (file_not_found file_name) (JStr peer_id))]
              | Some content =>
                  Ok (serialize (create_message now (response_type mtype)
                                   (file_metadata file_name (Z.of_nat (length content))
                                      chunk_size)
                                   (JStr peer_id))
                      :: sent_chunks (read_file_chunks chunk_size (Some chunk_size) content))
              end
          | _ => Raise TypeError
          end
  end.

(** What [download_file] and [replicate_file] do with the connection once
    the request is sent; [expected] is the type of response each of them
    waits for, [own_chunk_size] the client's [self.chunk_size]. *)
Definition fetch (expected : string) (own_chunk_size : Z) (sock : list bytes)
    : outcome fetched :=
  match receive_message sock with
  | MessageError => Ok NoMessage
  | RecvError e => Raise e
  | Message meta_msg sock' =>
      let* response := py_get meta_msg "type" JNull in
      if negb (is_str expected response) then Ok RuntimeError
      else
        let* meta := py_get meta_msg "payload" (JObj []) in
        let* status := py_get meta "status" JNull in
        if negb (is_str "ok" status) then Ok RuntimeError
        else
          let* file_size := py_get meta "file_size" (JNum 0) in
          let* file_size := py_int int_of_str file_size in
          let* chunk_size := py_get meta "chunk_size" (JNum own_chunk_size) in
          let* chunk_size := py_int int_of_str chunk_size in
          let '(file, ending) := receive_file file_size chunk_size sock' in
          Ok (Written file ending)
  end.

(** [PeerClient.download_file] *)
Definition download_file (own_chunk_size : Z) (sock : list bytes) : outcome fetched :=
  fetch "OBTAIN_RESPONSE" own_chunk_size sock.

(** [PeerClient.replicate_file] *)
Definition replicate_file (own_chunk_size : Z) (sock : list bytes) : outcome fetched :=
  fetch "REPLICATE_RESPONSE" own_chunk_size sock.
End Peers.

(** [make_obtain_request(peer_id, file_name)] *)
Definition make_obtain_request (now : Z) (peer_id file_name : string) : obj :=
  create_message now "OBTAIN_REQUEST" [("file_name", JStr file_name)] (JStr peer_id).

(** [make_replicate_request(peer_id, file_name)] *)
Definition make_replicate_request (now : Z) (peer_id file_name : string) : obj :=
  create_message now "REPLICATE_REQUEST" [("file_name", JStr file_name)] (JStr peer_id).

(** ** A sample exchange between two peers *)

(** The content of the file [a.txt] that [peer1] shares: [b"hello"]. *)
Definition hello : bytes := [Byte.x68; Byte.x65; Byte.x6c; Byte.x6c; Byte.x6f].

Definition shared_a (name : string) : option bytes :=
  if String.eqb name "a.txt" then Some hello else None.

(** A wire format for the sample: a request is written [b"q"] and every
    other message [b"a"]; [b"q"] is read as the request of [peer2] for
    [name] and any other byte as [answer]. *)
Definition sample_dumps (message : json) : bytes :=
  match message with
  | JObj fields =>
      if is_str "OBTAIN_REQUEST" (default JNull (dict_get fields "type"))
      then [Byte.x71] else [Byte.x61]
  | _ => [Byte.x61]
  end.

Definition sample_loads (name : string) (answer : obj) (line : bytes) : option json :=
  match line with
  | [b] => if Byte.eqb b Byte.x71 then Some (JObj (make_obtain_request 1 "peer2" name))
           else Some (JObj answer)
  | _ => None
  end.

(** The request as it arrives at [peer1]: [b"q\n"] in one segment. *)
Definition sample_conn : list bytes := [[Byte.x71; newline]].

(** ** indexing_server/server.py *)

(** How [IndexingServer.handle_client] leaves a connection: the index, the
    responses it sent, and how it ended, [Ok] when it stopped reading. *)
Record session : Type := mk_session {
  index : FileIndex;
  responses : list obj;
  ending : outcome unit
}.

Section Server.
Variable int_of_str : string -> option Z.
Variable replication_factor : Z.
Variable loads : bytes -> option json.
Variable py_str : json -> string.

(** The payload of the response to a message of no known type. *)
Definition unknown_type (mtype : json) : obj :=
  [("status", JStr "error");
   ("error", JStr ("unknown message type: " ++ py_str mtype))].

(** One turn of the loop of [handle_client] once a message is read: the
    handler that the type of the message selects, and its response. *)
Definition dispatch (s : FileIndex) (now : Z) (message : json) (addr : string * Z)
    : FileIndex * outcome obj :=
  match message with
  | JObj fields =>
      let mtype := default JNull (dict_get fields "type") in
      if is_str "REGISTRY_REQUEST" mtype then
        register_peer int_of_str replication_factor s now fields addr
      else if is_str "SEARCH_REQUEST" mtype then
        (s, search s now fields)
      else
        (s, Ok (create_message now "REGISTRY_RESPONSE" (unknown_type mtype) JNull))
  | _ => (s, Raise AttributeError)
  end.

(** [IndexingServer.handle_client] on one connection, served alone: it
    answers message after message until [receive_message] raises, and an
    exception of a handler ends it with the connection closed.  [now]
    gives the reading of the clock at each turn; the connection is taken
    to carry every response. *)
Equations? handle_connection (s : FileIndex) (now : nat -> Z) (turn : nat)
    (addr : string * Z) (conn : list bytes) : session by wf (pending conn) lt :=
  handle_connection s now turn addr conn with inspect (receive_message loads conn) => {
    | exist _ MessageError _ := mk_session s [] (Ok tt);
    | exist _ (RecvError _) _ := mk_session s [] (Ok tt);
    | exist _ (Message message conn') Hread with dispatch s (now turn) message addr => {
        | (s', Raise e) := mk_session s' [] (Raise e);
        | (s', Untyped) := mk_session s' [] Untyped;
        | (s', Ok response) :=
            let rest := handle_connection s' now (S turn) addr conn' in
            mk_session (index rest) (response :: responses rest) (ending rest) } }.
Proof.
  assert (Hconsumes : ∀ joined sock line sock',
            receive_line joined sock = Line line sock' →
            (pending sock' < pending sock)%nat).
  { clear. intros joined sock.
    funelim (receive_line joined sock); intros read sock0 Hline; try discriminate Hline.
    all: assert (Hless : (pending sock' < pending sock)%nat)
           by (pose proof Hrecv as Hr; recv_consumes Hr).
    - by injection Hline as _ <-.
    - match goal with
      | IH : ∀ _ _, _ → (_ < _)%nat |- _ => pose proof (IH _ _ Hline)
      end.
      lia. }
  unfold receive_message in Hread.
  destruct (receive_line [] conn) as [line sock'| |] eqn:Hline; try discriminate Hread.
  destruct (loads line); [|discriminate Hread]. injection Hread as _ <-.
  by apply (Hconsumes [] conn line).
Qed.
End Server.

(** * Properties *)

(** ** Dictionaries *)

Section PyDictFacts.
Context {V : Type}.
Implicit Types (d : list (string * V)) (k : string) (v : V).

Lemma dict_get_set_eq d k v : dict_get (dict_set d k v) k = Some v.
Proof.
  induction d as [|[k' v'] d IH]; simpl.
  - by rewrite decide_True.
  - destruct (decide (k' = k)) as [->|Hne]; simpl.
    + by rewrite decide_True.
    + by rewrite decide_False.
Qed.

Lemma dict_get_set_ne d k k' v :
  k ≠ k' → dict_get (dict_set d k v) k' = dict_get d k'.
Proof.
  intros Hne. induction d as [|[k0 v0] d IH]; simpl.
  - by rewrite decide_False.
  - destruct (decide (k0 = k)) as [->|Hk]; simpl.
    + by rewrite !decide_False.
    + by rewrite IH.
Qed.

Lemma dict_get_None d k : dict_get d k = None ↔ k ∉ dict_keys d.
Proof.
  unfold dict_keys. induction d as [|[k' v'] d IH]; simpl.
  - split; [intros _; apply not_elem_of_nil | done].
  - rewrite not_elem_of_cons. destruct (decide (k' = k)) as [->|Hne].
    + split; [done | intros [? _]; congruence].
    + rewrite IH. split; [by intros ? | by intros [_ ?]].
Qed.

Lemma dict_get_is_Some d k : is_Some (dict_get d k) ↔ k ∈ dict_keys d.
Proof.
  destruct (dict_get d k) eqn:E.
  - split; [intros _ | eauto].
    destruct (decide (k ∈ dict_keys d)) as [|Hn]; [done|].
    apply dict_get_None in Hn. congruence.
  - split; [by intros [? ?] | intros Hin]. by apply dict_get_None in E.
Qed.

Lemma dict_get_elem_of d k v : dict_get d k = Some v → (k, v) ∈ d.
Proof.
  induction d as [|[k' v'] d IH]; simpl; [done|].
  destruct (decide (k' = k)) as [->|Hne].
  - intros [= ->]. apply elem_of_cons; by left.
  - intros H. apply elem_of_cons; right; auto.
Qed.

Lemma dict_get_app_l d1 d2 k :
  k ∉ dict_keys d1 → dict_get (d1 ++ d2) k = dict_get d2 k.
Proof.
  unfold dict_keys. induction d1 as [|[k' v'] d1 IH]; simpl; [done|].
  rewrite not_elem_of_cons. intros [Hne Hni]. rewrite decide_False by done. auto.
Qed.

Lemma dict_get_app_r d1 d2 k :
  k ∉ dict_keys d2 → dict_get (d1 ++ d2) k = dict_get d1 k.
Proof.
  intros Hni. induction d1 as [|[k' v'] d1 IH]; simpl.
  - by apply dict_get_None.
  - by rewrite IH.
Qed.

Lemma dict_set_app_l d1 d2 k v :
  k ∉ dict_keys d1 → dict_set (d1 ++ d2) k v = d1 ++ dict_set d2 k v.
Proof.
  unfold dict_keys. induction d1 as [|[k' v'] d1 IH]; simpl; [done|].
  rewrite not_elem_of_cons. intros [Hne Hni].
  rewrite decide_False by done. by rewrite IH.
Qed.

Lemma dict_del_app_l d1 d2 k :
  k ∉ dict_keys d1 → dict_del (d1 ++ d2) k = d1 ++ dict_del d2 k.
Proof.
  unfold dict_keys. induction d1 as [|[k' v'] d1 IH]; simpl; [done|].
  rewrite not_elem_of_cons. intros [Hne Hni].
  rewrite decide_False by done. by rewrite IH.
Qed.

Lemma dict_set_set d k v v' : dict_set (dict_set d k v) k v' = dict_set d k v'.
Proof.
  induction d as [|[k' v0] d IH]; simpl.
  - by rewrite decide_True.
  - destruct (decide (k' = k)) as [->|Hne]; simpl.
    + by rewrite decide_True.
    + by rewrite decide_False, IH.
Qed.

Lemma dict_keys_set_present d k v :
  k ∈ dict_keys d → dict_keys (dict_set d k v) = dict_keys d.
Proof.
  unfold dict_keys. induction d as [|[k' v'] d IH]; simpl.
  - by intros ?%elem_of_nil.
  - destruct (decide (k' = k)) as [->|Hne]; simpl; [done|].
    intros [?|Hin]%elem_of_cons; [congruence|]. f_equal. by apply IH.
Qed.

Lemma dict_keys_set_absent d k v :
  k ∉ dict_keys d → dict_keys (dict_set d k v) = dict_keys d ++ [k].
Proof.
  unfold dict_keys. induction d as [|[k' v'] d IH]; simpl; [done|].
  rewrite not_elem_of_cons. intros [Hne Hni].
  rewrite decide_False by done. simpl. f_equal. by apply IH.
Qed.

Lemma dict_wf_set d k v : dict_wf d → dict_wf (dict_set d k v).
Proof.
  unfold dict_wf. intros Hwf.
  destruct (decide (k ∈ dict_keys d)) as [Hin|Hni].
  - by rewrite dict_keys_set_present.
  - rewrite dict_keys_set_absent by done.
    apply list.NoDup_app. split_and!; [done | | apply NoDup_singleton].
    intros x Hx ->%list_elem_of_singleton. done.
Qed.

(** Writing a key and deleting it again removes the item just written,
    whatever the other items are. *)
Lemma dict_del_set_Forall (P : string * V → Prop) d k v :
  Forall P d → Forall P (dict_del (dict_set d k v) k).
Proof.
  induction 1 as [|[k' v'] d HP Hd IH]; simpl.
  - rewrite decide_True by done. constructor.
  - destruct (decide (k' = k)) as [->|Hne]; simpl.
    + by rewrite decide_True.
    + rewrite decide_False by done. by constructor.
Qed.

Lemma dict_set_Forall (P : string * V → Prop) d k v :
  P (k, v) → Forall P d → Forall P (dict_set d k v).
Proof.
  intros Hk. induction 1 as [|[k' v'] d HP Hd IH]; simpl.
  - by repeat constructor.
  - destruct (decide (k' = k)) as [->|Hne]; by constructor.
Qed.

Lemma dict_keys_del_set_sublist d k v :
  sublist (dict_keys (dict_del (dict_set d k v) k)) (dict_keys d).
Proof.
  unfold dict_keys. induction d as [|[k' v'] d IH]; simpl.
  - rewrite decide_True by done. constructor.
  - destruct (decide (k' = k)) as [->|Hne]; simpl.
    + rewrite decide_True by done. by apply sublist_cons.
    + rewrite decide_False by done. simpl. by apply sublist_skip.
Qed.
End PyDictFacts.

(** ** The file index *)

Section FileIndexFacts.
Implicit Types (s : FileIndex) (fi : list (string * list entry)).

Lemma serves_spec peer_id (peers : list entry) :
  serves peer_id peers = true ↔ ∃ p, p ∈ peers ∧ e_peer_id p = peer_id.
Proof.
  unfold serves. rewrite existsb_exists. split.
  - intros (p & Hin & Hp). exists p. split; [by apply list_elem_of_In|].
    by apply bool_decide_eq_true_1 in Hp.
  - intros (p & Hin & Hp). exists p. split; [by apply list_elem_of_In|].
    by apply bool_decide_eq_true_2.
Qed.

Lemma without_peer_spec peer_id (peers : list entry) p :
  p ∈ without_peer peer_id peers ↔ e_peer_id p ≠ peer_id ∧ p ∈ peers.
Proof. unfold without_peer. by rewrite list_elem_of_filter. Qed.

Lemma without_peer_all peer_id (peers : list entry) :
  (∀ p, p ∈ peers → e_peer_id p = peer_id) → without_peer peer_id peers = [].
Proof.
  intros Hall. destruct (without_peer peer_id peers) as [|p rest] eqn:E; [done|].
  assert (Hp : p ∈ without_peer peer_id peers) by (rewrite E; apply elem_of_cons; by left).
  apply without_peer_spec in Hp as [Hne Hin]. by apply Hall in Hin.
Qed.

Lemma elem_of_swept peer_id fi fname kept :
  (fname, kept) ∈ swept peer_id fi ↔
  ∃ peers, (fname, peers) ∈ fi ∧ kept = without_peer peer_id peers ∧ kept ≠ [].
Proof.
  unfold swept. rewrite list_elem_of_omap. split.
  - intros ([k peers] & Hin & Hk). simpl in Hk.
    destruct (without_peer peer_id peers) as [|x xs] eqn:E; [done|].
    injection Hk as -> <-. exists peers. by rewrite E.
  - intros (peers & Hin & -> & Hne). exists (fname, peers). split; [done|]. simpl.
    by destruct (without_peer peer_id peers).
Qed.

Lemma swept_cons peer_id fname peers fi :
  swept peer_id ((fname, peers) :: fi) =
    match without_peer peer_id peers with
    | [] => swept peer_id fi
    | x :: xs => (fname, x :: xs) :: swept peer_id fi
    end.
Proof. unfold swept. simpl. by destruct (without_peer peer_id peers). Qed.

Lemma swept_keys_sublist peer_id fi :
  sublist (dict_keys (swept peer_id fi)) (dict_keys fi).
Proof.
  induction fi as [|[k peers] fi IH]; [constructor|].
  rewrite swept_cons. unfold dict_keys in *.
  destruct (without_peer peer_id peers); simpl.
  - by apply sublist_cons.
  - by apply sublist_skip.
Qed.

Lemma dict_get_swept peer_id fi fname :
  dict_wf fi →
  dict_get (swept peer_id fi) fname =
    match dict_get fi fname with
    | Some peers => match without_peer peer_id peers with
                    | [] => None
                    | kept => Some kept
                    end
    | None => None
    end.
Proof.
  induction fi as [|[k peers] fi IH]; [done|].
  rewrite swept_cons. unfold dict_wf, dict_keys in *. simpl.
  intros [Hk Hwf]%list.NoDup_cons. specialize (IH Hwf).
  destruct (decide (k = fname)) as [->|Hne].
  - destruct (without_peer peer_id peers) as [|x xs]; simpl.
    + apply dict_get_None. intros Hin. apply Hk.
      eapply elem_of_sublist; [exact Hin|]. apply swept_keys_sublist.
    + by rewrite decide_True.
  - destruct (without_peer peer_id peers) as [|x xs]; simpl; [done|].
    by rewrite decide_False.
Qed.

(** The loop of [remove_peer], started on the items not yet visited with
    the finished part of the index in front of them. *)
Lemma sweep_loop peer_id (rest done : list (string * list entry)) :
  dict_wf (done ++ rest) →
  fold_left (sweep peer_id) rest (done ++ rest) = done ++ swept peer_id rest.
Proof.
  revert done. induction rest as [|[k peers] rest IH]; intros done Hwf.
  - done.
  - assert (Hk : k ∉ dict_keys done).
    { unfold dict_wf, dict_keys in *. rewrite fmap_app in Hwf.
      apply list.NoDup_app in Hwf as (_ & Hdisj & _). intros Hin.
      apply (Hdisj k Hin). simpl. apply elem_of_cons; by left. }
    rewrite swept_cons. simpl. unfold sweep at 2. unfold store_or_drop. simpl.
    rewrite dict_set_app_l by done. simpl. rewrite decide_True by done.
    destruct (without_peer peer_id peers) as [|x xs].
    + rewrite dict_del_app_l by done. simpl. rewrite decide_True by done.
      apply IH.
      unfold dict_wf, dict_keys in *. rewrite fmap_app in *. simpl in Hwf.
      eapply sublist_NoDup; [exact Hwf|].
      apply sublist_app; [done|]. by apply sublist_cons.
    + change (done ++ (k, x :: xs) :: rest) with (done ++ [(k, x :: xs)] ++ rest).
      rewrite app_assoc. rewrite IH.
      * by rewrite <- app_assoc.
      * unfold dict_wf, dict_keys in *. rewrite <- app_assoc.
        rewrite fmap_app in *. done.
Qed.

Lemma remove_peer_file_index s peer_id :
  dict_wf (file_index s) →
  file_index (remove_peer s peer_id) = swept peer_id (file_index s).
Proof. intros Hwf. simpl. by apply (sweep_loop peer_id (file_index s) []). Qed.
Lemma dict_keys_del_set (fi : list (string * list entry)) fname peers :
  dict_wf fi → fname ∉ dict_keys (dict_del (dict_set fi fname peers) fname).
Proof.
  unfold dict_wf, dict_keys. induction fi as [|[k l] fi IH]; simpl.
  - intros _. rewrite decide_True by done. apply not_elem_of_nil.
  - intros [Hk Hwf]%list.NoDup_cons.
    destruct (decide (k = fname)) as [->|Hne]; simpl.
    + by rewrite decide_True.
    + rewrite decide_False by done. simpl. rewrite not_elem_of_cons. auto.
Qed.

Lemma index_inv_init : index_inv init.
Proof. split; [apply NoDup_nil_2 | constructor]. Qed.

Lemma index_inv_store_or_drop fi fname kept :
  dict_wf fi → Forall (fun item => item.2 ≠ []) fi →
  dict_wf (store_or_drop fi fname kept) ∧
  Forall (fun item => item.2 ≠ []) (store_or_drop fi fname kept).
Proof.
  intros Hwf Hne. unfold store_or_drop. destruct kept as [|x xs].
  - split.
    + eapply sublist_NoDup; [exact Hwf | apply dict_keys_del_set_sublist].
    + by apply dict_del_set_Forall.
  - split; [by apply dict_wf_set | by apply dict_set_Forall].
Qed.

Lemma index_inv_exec s o : index_inv s → index_inv (exec s o).
Proof.
  intros [Hwf Hne]. destruct o as [p info | p | p f meta | p f]; simpl.
  - done.
  - split.
    + rewrite remove_peer_file_index by done.
      eapply sublist_NoDup; [exact Hwf | apply swept_keys_sublist].
    + rewrite remove_peer_file_index by done.
      apply list.Forall_forall. intros [k kept] Hin.
      apply elem_of_swept in Hin as (peers & _ & _ & Hk). done.
  - unfold add_file. destruct (dict_get (file_index s) f) as [peers|] eqn:E; simpl.
    + rewrite E. simpl. destruct (serves p peers); [done|]. split; simpl.
      * by apply dict_wf_set.
      * apply dict_set_Forall; [|done]. simpl. by destruct peers.
    + rewrite dict_get_set_eq. simpl. rewrite dict_set_set. split; simpl.
      * by apply dict_wf_set.
      * by apply dict_set_Forall.
  - unfold remove_file. destruct (dict_get (file_index s) f) as [[|x xs]|]; [done| |done].
    by apply index_inv_store_or_drop.
Qed.

Lemma reachable_index_inv s : reachable s → index_inv s.
Proof. induction 1; [apply index_inv_init | by apply index_inv_exec]. Qed.

Lemma get_peers_for_file_nil s file_name :
  get_peers_for_file s file_name = [] ↔ servings s file_name = [].
Proof.
  unfold get_peers_for_file. split; [|by intros ->].
  by destruct (servings s file_name).
Qed.

Lemma listed_iff_served s file_name :
  index_inv s → file_name ∈ list_files s ↔ get_peers_for_file s file_name ≠ [].
Proof.
  intros [Hwf Hne]. rewrite get_peers_for_file_nil. unfold list_files, servings.
  rewrite <- dict_get_is_Some. split.
  - intros [peers Hget]. rewrite Hget. simpl.
    apply dict_get_elem_of in Hget. rewrite list.Forall_forall in Hne.
    apply (Hne _ Hget).
  - destruct (dict_get (file_index s) file_name); [eauto | done].
Qed.
End FileIndexFacts.

(** ** Claims about the file index *)

(** C1, counterexample.  After [add_file("peer1", "a.txt")] on a fresh
    index, [get_peers_for_file("a.txt")] returns the serving of [peer1]
    although [peer1] is not a key of the registry; its [peer] field is the
    empty dict. *)
Lemma get_peers_for_file_keeps_unregistered :
  get_peer index_dangling "peer1" = None ∧
  get_peers_for_file index_dangling "a.txt"
    = [{| r_peer_id := "peer1"; r_peer := []; r_meta := [] |}].
Proof. split; reflexivity. Qed.

(** C1, amended.  [get_peers_for_file(file_name)] returns one element for
    every serving of the file, in the order of the serving list, none left
    out: it carries the serving's peer_id and meta, and its [peer] field is
    the registry record of that peer when the peer is registered and the
    empty dict when it is not. *)
Theorem get_peers_for_file_enriched (s : FileIndex) (file_name : string) :
  Forall2 (fun p e =>
             r_peer_id e = e_peer_id p ∧ r_meta e = e_meta p ∧
             r_peer e = match get_peer s (e_peer_id p) with
                        | Some reg => reg
                        | None => []
                        end)
          (servings s file_name) (get_peers_for_file s file_name).
Proof.
  unfold get_peers_for_file. induction (servings s file_name) as [|p peers IH]; simpl.
  - constructor.
  - constructor; [|exact IH]. unfold enrich, get_peer. simpl.
    by destruct (peer_registry s !! e_peer_id p).
Qed.



Lemma serves_after_add_file (s : FileIndex) (p f : string) (m : option obj) :
  serves p (servings (add_file s p f m) f) = true.
Proof.
  unfold add_file, servings.
  destruct (dict_get (file_index s) f) as [peers|] eqn:E; simpl.
  - rewrite E. simpl. destruct (serves p peers) eqn:Es; simpl.
    + by rewrite E.
    + rewrite dict_get_set_eq. simpl. apply serves_spec. eexists. split.
      * apply elem_of_app. right. by apply list_elem_of_singleton.
      * done.
  - rewrite dict_get_set_eq. simpl. rewrite dict_get_set_eq. simpl.
    by rewrite bool_decide_eq_true_2.
Qed.

(** C4.  When peer [p] already has a serving of file [f], [add_file(p, f,
    m')] changes nothing: the index is the same, so the serving list of [f]
    has the same length and the same elements with the metas they had. *)
Theorem add_file_duplicate_noop (s : FileIndex) (p f : string) (m' : option obj) :
  serves p (servings s f) = true →
  add_file s p f m' = s ∧
  length (servings (add_file s p f m') f) = length (servings s f) ∧
  servings (add_file s p f m') f = servings s f.
Proof.
  intros Hdup.
  assert (Heq : add_file s p f m' = s).
  { unfold add_file. unfold servings in Hdup.
    destruct (dict_get (file_index s) f) as [peers|] eqn:E; simpl in *; [|done].
    rewrite E. simpl. rewrite Hdup. by destruct s. }
  by rewrite Heq.
Qed.

Lemma add_file_duplicate_noop_witness :
  let s := add_file init "peer1" "a.txt" (Some [("size_bytes", JNum 12)]) in
  let m' := Some [("size_bytes", JNum 99)] in
  serves "peer1" (servings s "a.txt") = true ∧
  add_file s "peer1" "a.txt" m' = s ∧
  length (servings (add_file s "peer1" "a.txt" m') "a.txt") = length (servings s "a.txt") ∧
  servings (add_file s "peer1" "a.txt" m') "a.txt" = servings s "a.txt".
Proof.
  intros s m'. split; [reflexivity|].
  apply (add_file_duplicate_noop s "peer1" "a.txt" m'). reflexivity.
Defined.


(** C5.  In every index that calls of [add_peer], [remove_peer], [add_file]
    and [remove_file] build from the empty one, a file name is listed by
    [list_files()] exactly when its serving list is not empty; and when all
    servings of a file belong to one peer, [remove_file] of that peer and
    file and [remove_peer] of that peer leave the file unlisted. *)
Theorem listed_iff_serving_list_nonempty (s : FileIndex) :
  reachable s →
  (∀ f, f ∈ list_files s ↔ get_peers_for_file s f ≠ []) ∧
  (∀ f, f ∈ list_files s ↔ servings s f ≠ []) ∧
  (∀ p f, (∀ x, x ∈ servings s f → e_peer_id x = p) →
          (f ∉ list_files (exec s (RemoveFile p f))) ∧
          (f ∉ list_files (exec s (RemovePeer p)))).
Proof.
  intros Hs. pose proof (reachable_index_inv s Hs) as Hinv.
  assert (Hlisted : ∀ f, f ∈ list_files s ↔ get_peers_for_file s f ≠ [])
    by (intros f; by apply listed_iff_served).
  split_and!.
  - exact Hlisted.
  - intros f. rewrite Hlisted. by rewrite get_peers_for_file_nil.
  - intros p f Hall. destruct Hinv as [Hwf Hne]. split.
    + simpl. unfold remove_file. unfold servings in Hall.
      destruct (dict_get (file_index s) f) as [peers|] eqn:E.
      * apply without_peer_all in Hall. simpl in Hall.
        destruct peers as [|x xs].
        { apply dict_get_elem_of in E. rewrite list.Forall_forall in Hne.
          by destruct (Hne _ E). }
        unfold list_files, store_or_drop. simpl. rewrite Hall.
        by apply dict_keys_del_set.
      * by apply dict_get_None.
    + simpl exec. unfold list_files. rewrite remove_peer_file_index by done.
      rewrite <- dict_get_is_Some. rewrite dict_get_swept by done.
      unfold servings in Hall.
      destruct (dict_get (file_index s) f) as [peers|]; [|by intros [? ?]].
      apply without_peer_all in Hall. simpl in Hall. rewrite Hall. by intros [? ?].
Qed.

Lemma listed_iff_serving_list_nonempty_witness :
  reachable index_abc ∧
  (∀ f, f ∈ list_files index_abc ↔ get_peers_for_file index_abc f ≠ []) ∧
  (∀ f, f ∈ list_files index_abc ↔ servings index_abc f ≠ []) ∧
  (∀ p f, (∀ x, x ∈ servings index_abc f → e_peer_id x = p) →
          (f ∉ list_files (exec index_abc (RemoveFile p f))) ∧
          (f ∉ list_files (exec index_abc (RemovePeer p)))).
Proof.
  assert (Hreach : reachable index_abc).
  { unfold index_abc. repeat apply reachable_exec. apply reachable_init. }
  split; [exact Hreach|]. exact (listed_iff_serving_list_nonempty index_abc Hreach).
Defined.

Lemma dict_get_update {V : Type} (d e : list (string * V)) (k : string) :
  dict_wf e →
  dict_get (dict_update d e) k =
    match dict_get e k with
    | Some v => Some v
    | None => dict_get d k
    end.
Proof.
  unfold dict_update, dict_wf, dict_keys. revert d.
  induction e as [|[k0 v0] e IH]; intros d; simpl; [done|].
  intros [Hk Hwf]%list.NoDup_cons. rewrite IH by done.
  destruct (decide (k0 = k)) as [->|Hne].
  - apply dict_get_None in Hk. rewrite Hk. apply dict_get_set_eq.
  - by rewrite dict_get_set_ne.
Qed.

(** C9.  [add_peer(p, record')] for a registered [p] puts the record made
    of [record'] in the place of the old one (the fields of [record'], and
    [peer_id] set to [p] when [record'] has no such field) and leaves the
    file index as it was: the same files, and for every file the same
    servings with the same metas; the records of other peers stay. *)
Theorem add_peer_replaces_record_only (s : FileIndex) (p : string) (old record' : obj) :
  get_peer s p = Some old →
  get_peer (add_peer s p record') p = Some (registry_record p record') ∧
  (dict_wf record' →
   ∀ k, dict_get (registry_record p record') k =
        match dict_get record' k with
        | Some v => Some v
        | None => if decide (k = "peer_id") then Some (JStr p) else None
        end) ∧
  file_index (add_peer s p record') = file_index s ∧
  list_files (add_peer s p record') = list_files s ∧
  (∀ f, servings (add_peer s p record') f = servings s f) ∧
  (∀ q, q ≠ p → get_peer (add_peer s p record') q = get_peer s q).
Proof.
  intros _. split_and!; try done.
  - unfold get_peer. simpl. apply lookup_insert_eq.
  - intros Hwf k. unfold registry_record. rewrite dict_get_update by done.
    destruct (dict_get record' k); [done|]. simpl.
    destruct (decide ("peer_id" = k)) as [<-|Hne].
    + by rewrite decide_True.
    + by rewrite decide_False.
  - intros q Hq. unfold get_peer. simpl. by apply lookup_insert_ne.
Qed.

Lemma add_peer_replaces_record_only_witness :
  let record' := [("host", JStr "10.0.0.7"); ("port", JNum 7200)] in
  get_peer index_abc "peer1" = Some peer1_info ∧
  get_peer (add_peer index_abc "peer1" record') "peer1"
    = Some (registry_record "peer1" record') ∧
  file_index (add_peer index_abc "peer1" record') = file_index index_abc.
Proof.
  intros record'.
  assert (Hreg : get_peer index_abc "peer1" = Some peer1_info) by (vm_compute; reflexivity).
  split; [exact Hreg|].
  destruct (add_peer_replaces_record_only index_abc "peer1" peer1_info record' Hreg)
    as (Hrec & _ & Hfiles & _).
  split; [exact Hrec | exact Hfiles].
Defined.

(** ** Claims about the replication planner *)

Section PlannerFacts.
Variable int_of_str : string -> option Z.
Variable replication_factor : Z.

(** What [scan_file] has checked when it appends a task. *)
Lemma scan_file_append (s : FileIndex) (target fname : string) (t : task) :
  scan_file int_of_str replication_factor s target fname = Ok (Append t) →
  t_file_name t = fname ∧
  Z.of_nat (length (servings s fname)) < replication_factor ∧
  (∀ x, x ∈ servings s fname → e_peer_id x ≠ target) ∧
  ∃ first others host port,
    servings s fname = first :: others ∧
    src_peer_id (t_source t) = e_peer_id first ∧
    host = py_or (default JNull (dict_get (r_peer (enrich s first)) "host"))
                 (default JNull (dict_get (r_peer (enrich s first)) "ip")) ∧
    port = default JNull (dict_get (r_peer (enrich s first)) "port") ∧
    truthy host = true ∧ truthy port = true ∧
    src_host (t_source t) = host ∧ py_int int_of_str port = Ok (src_port (t_source t)).
Proof.
  unfold scan_file, get_peers_for_file. rewrite length_map.
  destruct (replication_factor <=? Z.of_nat (length (servings s fname))) eqn:Hlen; [done|].
  apply Z.leb_gt in Hlen.
  destruct (among target (map (enrich s) (servings s fname))) eqn:Hamong; [done|].
  destruct (servings s fname) as [|first others] eqn:Hserv; [done|].
  cbv beta iota delta [map]. fold (map (enrich s)).
  set (host := py_or _ _). set (port := default JNull _).
  destruct (truthy host) eqn:Hhost; [|done].
  destruct (truthy port) eqn:Hport; [|done]. simpl.
  destruct (py_int int_of_str port) as [n| |] eqn:Hint; simpl; [|done|done].
  intros [= <-]. simpl. split_and!; [done|done| |].
  - intros x Hx Heq. unfold among in Hamong.
    assert (existsb (fun p => bool_decide (r_peer_id p = target))
              (map (enrich s) (first :: others)) = true) as Hex; [|congruence].
    apply existsb_exists. exists (enrich s x). split.
    + apply list_elem_of_In, list_elem_of_fmap. eauto.
    + by apply bool_decide_eq_true_2.
  - exists first, others, host, port. by split_and!.
Qed.

(** The loop only adds tasks that [scan_file] appended for one of the
    files it went through, and it stops at the first append that brings the
    list to [max_tasks] elements or more. *)
Lemma scan_files_sound (s : FileIndex) (target : string) (max_tasks : Z)
    (files : list string) (tasks out : list task) :
  scan_files int_of_str replication_factor s target max_tasks files tasks = Ok out →
  (∀ t, t ∈ out → t ∈ tasks ∨
                  (t_file_name t ∈ files ∧ scan_file int_of_str replication_factor s target (t_file_name t) = Ok (Append t))) ∧
  Z.of_nat (length out) ≤ Z.max max_tasks (Z.of_nat (length tasks) + 1).
Proof.
  revert tasks. induction files as [|fname rest IH]; intros tasks; simpl.
  - intros [= <-]. split; [by left | lia].
  - destruct (scan_file int_of_str replication_factor s target fname) as [[|t]| |] eqn:Hscan; simpl; [| |done|done].
    + intros [Hin Hlen]%IH. split; [|done].
      intros t [?|[Hf Ht]]%Hin; [by left|]. right. split; [|done].
      apply elem_of_cons. by right.
    + assert (Hname : t_file_name t = fname).
      { apply scan_file_append in Hscan. tauto. }
      destruct (max_tasks <=? Z.of_nat (length (tasks ++ [t]))) eqn:Hfull.
      * intros [= <-]. rewrite length_app. simpl. split; [|lia].
        intros t' [? | ->%list_elem_of_singleton]%elem_of_app; [by left|].
        right. rewrite Hname. split; [apply elem_of_cons; by left | done].
      * apply Z.leb_gt in Hfull. rewrite length_app in Hfull. simpl in Hfull.
        intros [Hin Hlen]%IH. rewrite length_app in Hlen. simpl in Hlen. split; [|lia].
        intros t' [[? | ->%list_elem_of_singleton]%elem_of_app|[Hf Ht]]%Hin.
        -- by left.
        -- right. rewrite Hname. split; [apply elem_of_cons; by left | done].
        -- right. split; [apply elem_of_cons; by right | done].
Qed.

(** What the planner does guarantee.  Every task that
    [build_replication_tasks_for_peer(t, max_tasks)] returns names a listed
    file with fewer servings than the replication factor, none of them by
    [t], and its source is the first serving's peer, whose registry record
    gives a truthy host (or ip) and port; the list has at most [max_tasks]
    elements when [max_tasks] is at least 1, and at most one otherwise. *)
Lemma build_replication_tasks_sound (s : FileIndex) (target : string) (max_tasks : Z)
    (out : list task) :
  build_replication_tasks_for_peer int_of_str replication_factor s target max_tasks = Ok out →
  (∀ t, t ∈ out →
     t_file_name t ∈ list_files s ∧
     Z.of_nat (length (servings s (t_file_name t))) < replication_factor ∧
     (∀ x, x ∈ servings s (t_file_name t) → e_peer_id x ≠ target) ∧
     ∃ first others,
       servings s (t_file_name t) = first :: others ∧
       src_peer_id (t_source t) = e_peer_id first ∧
       truthy (src_host (t_source t)) = true ∧
       src_host (t_source t)
         = py_or (default JNull (dict_get (r_peer (enrich s first)) "host"))
                 (default JNull (dict_get (r_peer (enrich s first)) "ip")) ∧
       truthy (default JNull (dict_get (r_peer (enrich s first)) "port")) = true ∧
       py_int int_of_str (default JNull (dict_get (r_peer (enrich s first)) "port"))
         = Ok (src_port (t_source t))) ∧
  Z.of_nat (length out) ≤ Z.max max_tasks 1.
Proof.
  unfold build_replication_tasks_for_peer.
  intros [Hin Hlen]%scan_files_sound. split; [|simpl in Hlen; lia].
  intros t [?%elem_of_nil|[Hf Ht]]%Hin; [done|].
  apply scan_file_append in Ht
    as (_ & Hcount & Hnot & first & others & host & port & Hs & Hid & -> & -> & Hh & Hp & Hsh & Hsp).
  split_and!; [done..|]. exists first, others. rewrite Hsh. by split_and!.
Qed.
End PlannerFacts.

(** C3, the input on which the code leaves the claim.  With one registered
    peer serving three files, replication factor 2 and [max_tasks = 0],
    [build_replication_tasks_for_peer("peer2", 0)] returns one task: the
    test [len(tasks) >= max_tasks] comes after [tasks.append]. *)
Theorem build_replication_tasks_zero_bound (int_of_str : string -> option Z) :
  build_replication_tasks_for_peer int_of_str 2 index_abc "peer2" 0
    = Ok [{| t_file_name := "a.txt";
             t_source := {| src_peer_id := "peer1";
                            src_host := JStr "127.0.0.1";
                            src_port := 7100 |} |}].
Proof. reflexivity. Qed.

(** ** Claims about the handlers *)

Lemma among_enrich (s : FileIndex) (target : string) (peers : list entry) :
  among target (map (enrich s) peers) = serves target peers.
Proof.
  unfold among, serves. induction peers as [|x peers IH]; simpl; [done|]. by rewrite IH.
Qed.

Lemma enrich_add_peer_ne (s : FileIndex) (pid : string) (record : obj) (x : entry) :
  e_peer_id x ≠ pid → enrich (add_peer s pid record) x = enrich s x.
Proof. intros Hne. unfold enrich. simpl. by rewrite lookup_insert_ne. Qed.

Section HandlerFacts.
Variable int_of_str : string -> option Z.
Variable replication_factor : Z.

(** The planner does not look at the record of the peer it plans for: a
    file whose first source is that peer is served by it and passed over. *)
Lemma scan_file_add_peer (s : FileIndex) (pid : string) (record : obj) (fname : string) :
  scan_file int_of_str replication_factor (add_peer s pid record) pid fname
  = scan_file int_of_str replication_factor s pid fname.
Proof.
  unfold scan_file, get_peers_for_file.
  change (servings (add_peer s pid record) fname) with (servings s fname).
  rewrite !length_map, !among_enrich.
  destruct (replication_factor <=? Z.of_nat (length (servings s fname))); [done|].
  destruct (serves pid (servings s fname)) eqn:Hserves; [done|].
  replace (map (enrich (add_peer s pid record)) (servings s fname))
    with (map (enrich s) (servings s fname)); [done|].
  apply map_ext_in. intros x Hx%list_elem_of_In. symmetry. apply enrich_add_peer_ne.
  intros Heq. assert (serves pid (servings s fname) = true); [|congruence].
  apply serves_spec. eauto.
Qed.

Lemma build_replication_tasks_add_peer (s : FileIndex) (pid : string) (record : obj)
    (max_tasks : Z) :
  build_replication_tasks_for_peer int_of_str replication_factor (add_peer s pid record)
    pid max_tasks
  = build_replication_tasks_for_peer int_of_str replication_factor s pid max_tasks.
Proof.
  unfold build_replication_tasks_for_peer.
  change (list_files (add_peer s pid record)) with (list_files s).
  generalize (@nil task) as tasks.
  induction (list_files s) as [|fname rest IH]; intros tasks; simpl; [done|].
  rewrite scan_file_add_peer.
  destruct (scan_file int_of_str replication_factor s pid fname) as [[|t]| |]; simpl;
    [apply IH| |done|done].
  destruct (max_tasks <=? Z.of_nat (length (tasks ++ [t]))); [done | apply IH].
Qed.

Lemma truthy_JStr (x : string) : x ≠ "" → truthy (JStr x) = true.
Proof. intros Hne. simpl. by apply negb_true_iff, String.eqb_neq. Qed.

(** [register_peer] for a message with an object payload, a non-empty
    [str] peer_id and an object (or no) ["peer"] field, up to the loop over
    the files. *)
Lemma register_peer_unfold (s : FileIndex) (now : Z) (message payload peer_info : obj)
    (pid : string) (client_addr : string * Z) :
  default (JObj []) (dict_get message "payload") = JObj payload →
  dict_get message "peer_id" = Some (JStr pid) → pid ≠ "" →
  default (JObj []) (dict_get payload "peer") = JObj peer_info →
  register_peer int_of_str replication_factor s now message client_addr =
    match register_files (add_peer s pid (peer_record_of int_of_str peer_info client_addr))
                         pid (default (JObj []) (dict_get payload "files")) with
    | (s2, Ok registered) =>
        (s2,
         let* tasks := build_replication_tasks_for_peer int_of_str replication_factor s2 pid 5 in
         Ok (create_message now "REGISTRY_RESPONSE" (registry_ok registered tasks) (JStr pid)))
    | (s2, Raise e) => (s2, Raise e)
    | (s2, Untyped) => (s2, Untyped)
    end.
Proof.
  intros Hpayload Hpid Hne Hpeer. unfold register_peer.
  rewrite Hpayload, Hpid, Hpeer. simpl default.
  rewrite (truthy_JStr pid Hne). reflexivity.
Qed.

Lemma register_mapping_count (s : FileIndex) (pid : string) (files : obj) (n : Z) :
  (register_mapping s pid files n).2 = n + Z.of_nat (length files).
Proof.
  revert s n. induction files as [|[fname meta] files IH]; intros s n; simpl.
  - lia.
  - rewrite IH. lia.
Qed.

Lemma register_items_nameless (s : FileIndex) (pid : string) (before after : list json)
    (item : json) (n : Z) :
  nameless item →
  register_items s pid (before ++ item :: after) n = register_items s pid (before ++ after) n.
Proof.
  intros Hitem. revert s n.
  induction before as [|x before IH]; intros s n; simpl.
  - destruct item as [| | | | |fields]; try done.
    destruct Hitem as [-> ->]. reflexivity.
  - destruct x as [| | | | |fields]; try apply IH.
    destruct (truthy _); [|apply IH].
    destruct (as_str _); [apply IH|done|done].
Qed.
End HandlerFacts.


(** Outside that layout: a ["payload"] that is present and not an object
    ends the call at [payload.get("files", {})], before [peer_id] is
    looked at. *)
Lemma register_peer_payload_not_object (int_of_str : string -> option Z)
    (replication_factor : Z) (s : FileIndex) (now : Z) (message : obj) (payload : json)
    (client_addr : string * Z) :
  dict_get message "payload" = Some payload →
  (∀ fields, payload ≠ JObj fields) →
  register_peer int_of_str replication_factor s now message client_addr
  = (s, Raise AttributeError).
Proof.
  intros Hp Hobj. unfold register_peer. rewrite Hp. simpl.
  destruct payload as [| | | | |fields]; try done. by destruct (Hobj fields).
Qed.



(** C7, the input on which the code leaves the claim.  A SEARCH_REQUEST
    whose [query] is [null], which is neither a string nor an object, gets
    no response with status "error": [query.get] raises [AttributeError].
    The same happens for a number, a boolean and a list. *)
Theorem search_null_query_raises (s : FileIndex) (now : Z) :
  is_message "SEARCH_REQUEST" search_null ∧
  search s now search_null = Raise AttributeError.
Proof. split; [split; [reflexivity | exact I] | reflexivity]. Qed.

(** The queries that [search] answers: a query that is a string, or an
    object whose ["file_name"] is a string or is missing, or no query at
    all. *)
Lemma search_string_or_object (s : FileIndex) (now : Z) (message payload : obj) :
  default (JObj []) (dict_get message "payload") = JObj payload →
  let respond resp :=
    Ok (create_message now "SEARCH_RESPONSE" resp (default JNull (dict_get message "peer_id"))) in
  let by_name f :=
    if decide (f = "") then respond search_error
    else respond (search_ok (JStr f) (get_peers_for_file s f)) in
  (∀ f, dict_get payload "query" = Some (JStr f) → search s now message = by_name f) ∧
  (∀ q f, dict_get payload "query" = Some (JObj q) →
          dict_get q "file_name" = Some (JStr f) → search s now message = by_name f) ∧
  (∀ q, dict_get payload "query" = Some (JObj q) →
        dict_get q "file_name" = None ∨ dict_get q "file_name" = Some JNull →
        search s now message = respond search_error) ∧
  (dict_get payload "query" = None → search s now message = respond search_error) ∧
  (∀ f, f ≠ "" → servings s f = [] →
        respond (search_ok (JStr f) (get_peers_for_file s f))
        = respond [("status", JStr "ok"); ("file_name", JStr f); ("results", JArr [])]).
Proof.
  intros Hpayload respond by_name. unfold search. simpl bind. rewrite Hpayload.
  assert (Hname : ∀ f,
    (let* resp := if negb (negb (String.eqb f ""))
                  then Ok search_error
                  else Ok (search_ok (JStr f) (get_peers_for_file s f)) in
     respond resp) = by_name f).
  { intros f. unfold by_name. destruct (decide (f = "")) as [->|Hne]; [done|].
    apply String.eqb_neq in Hne. by rewrite Hne. }
  split_and!.
  - intros f Hq. simpl. rewrite Hq. simpl. apply Hname.
  - intros q f Hq Hf. simpl. rewrite Hq. simpl. rewrite Hf. simpl. apply Hname.
  - intros q Hq [Hf|Hf]; simpl; rewrite Hq; simpl; by rewrite Hf.
  - intros Hq. simpl. by rewrite Hq.
  - intros f Hne Hnone. unfold get_peers_for_file. by rewrite Hnone.
Qed.

(** C8, counterexample.  With replication factor 2 and [peer1] the only
    server of [f.bin], a registration of [peer2] with the empty mapping
    [{}] is answered with [registered_files = 0] and one replication task,
    for [f.bin] from [peer1]. *)
Lemma empty_registration_receives_tasks :
  (register_peer decimal 2 index_f 1
     (registry_request 1 "peer2" (JObj []) "127.0.0.1" 7101) ("127.0.0.1", 50001)).2
  = Ok (create_message 1 "REGISTRY_RESPONSE"
          [("status", JStr "ok");
           ("registered_files", JNum 0);
           ("replication_tasks",
            JArr [JObj [("file_name", JStr "f.bin");
                        ("source", JObj [("peer_id", JStr "peer1");
                                         ("host", JStr "127.0.0.1");
                                         ("port", JNum 7100)])]]);
           ("replication_required", JBool true)]
          (JStr "peer2")).
Proof. vm_compute. reflexivity. Qed.

(** C8, amended.  A REGISTRY_REQUEST with a non-empty string peer_id, an
    object (or no) ["peer"] field and an empty files collection, [{}] or
    [[]], only writes the registry record of the peer: the file index stays
    as it was, the response has status "ok" and [registered_files = 0], and
    its replication tasks are those that
    [build_replication_tasks_for_peer(peer_id, 5)] builds from the index
    before the call, present exactly when there are some; with an empty
    file index there are none. *)
Theorem register_peer_empty_files (int_of_str : string -> option Z)
    (replication_factor : Z) (s : FileIndex) (now : Z) (message payload : obj)
    (pid : string) (client_addr : string * Z) :
  is_message "REGISTRY_REQUEST" message →
  dict_get message "payload" = Some (JObj payload) →
  dict_get message "peer_id" = Some (JStr pid) →
  pid ≠ "" →
  dict_get payload "peer" = None ∨ (∃ info, dict_get payload "peer" = Some (JObj info)) →
  dict_get payload "files" = Some (JObj []) ∨ dict_get payload "files" = Some (JArr []) →
  ∃ record,
    register_peer int_of_str replication_factor s now message client_addr
    = (add_peer s pid record,
       let* tasks := build_replication_tasks_for_peer int_of_str replication_factor s pid 5 in
       Ok (create_message now "REGISTRY_RESPONSE" (registry_ok 0 tasks) (JStr pid))) ∧
    file_index (add_peer s pid record) = file_index s ∧
    registry_ok 0 [] = [("status", JStr "ok"); ("registered_files", JNum 0);
                        ("replication_required", JBool false)] ∧
    (∀ t tasks, dict_get (registry_ok 0 (t :: tasks)) "replication_tasks"
                = Some (JArr (map task_json (t :: tasks)))) ∧
    (file_index s = [] →
     build_replication_tasks_for_peer int_of_str replication_factor s pid 5 = Ok []).
Proof.
  intros _ Hpayload Hpid Hne Hpeer Hfiles.
  assert (∃ info, default (JObj []) (dict_get payload "peer") = JObj info) as [info Hinfo].
  { destruct Hpeer as [-> | [info ->]]; eauto. }
  exists (peer_record_of int_of_str info client_addr). split_and!.
  - rewrite (register_peer_unfold _ _ s now message payload info pid client_addr);
      [| by rewrite Hpayload | done | done | done].
    destruct Hfiles as [-> | ->]; simpl; by rewrite build_replication_tasks_add_peer.
  - reflexivity.
  - reflexivity.
  - reflexivity.
  - intros Hempty. unfold build_replication_tasks_for_peer, list_files. by rewrite Hempty.
Qed.

Lemma register_peer_empty_files_witness :
  let message := registry_request 1 "peer2" (JArr []) "127.0.0.1" 7101 in
  is_message "REGISTRY_REQUEST" message ∧
  ∃ record,
    register_peer decimal 2 index_f 1 message ("127.0.0.1", 50001)
    = (add_peer index_f "peer2" record,
       let* tasks := build_replication_tasks_for_peer decimal 2 index_f "peer2" 5 in
       Ok (create_message 1 "REGISTRY_RESPONSE" (registry_ok 0 tasks) (JStr "peer2"))) ∧
    file_index (add_peer index_f "peer2" record) = file_index index_f.
Proof.
  intros message.
  assert (Hmsg : is_message "REGISTRY_REQUEST" message) by (split; [reflexivity | exact I]).
  split; [exact Hmsg|].
  destruct (register_peer_empty_files decimal 2 index_f 1 message
              [("files", JArr []);
               ("peer", JObj [("peer_id", JStr "peer2"); ("host", JStr "127.0.0.1");
                              ("port", JNum 7101)])]
              "peer2" ("127.0.0.1", 50001) Hmsg)
    as (record & Hrun & Hindex & _).
  - reflexivity.
  - reflexivity.
  - discriminate.
  - right. eexists. reflexivity.
  - right. reflexivity.
  - exists record. split; [exact Hrun | exact Hindex].
Defined.

(** C10.  (1) In a list of files, an element that is not an object, or an
    object with neither a ["name"] nor a ["file_name"] key, is passed over:
    the call ends with the same index and the same response as for the list
    without that element.  (2) For a mapping of files, [registered_files]
    is the number of entries of the mapping.  (3) It can exceed the number
    of servings added: when [peer1], already serving [f.bin], registers
    [{"f.bin": {}}] again, the file index stays as it was and
    [registered_files] is 1. *)
Theorem register_peer_counts_entries (int_of_str : string -> option Z)
    (replication_factor : Z) :
  (∀ s now message message' payload payload' client_addr before item after,
     dict_get message "peer_id" = dict_get message' "peer_id" →
     dict_get message "payload" = Some (JObj payload) →
     dict_get message' "payload" = Some (JObj payload') →
     dict_get payload "peer" = dict_get payload' "peer" →
     dict_get payload "files" = Some (JArr (before ++ item :: after)) →
     dict_get payload' "files" = Some (JArr (before ++ after)) →
     nameless item →
     register_peer int_of_str replication_factor s now message client_addr
     = register_peer int_of_str replication_factor s now message' client_addr) ∧
  (∀ s now message payload pid info files client_addr,
     dict_get message "payload" = Some (JObj payload) →
     dict_get message "peer_id" = Some (JStr pid) →
     pid ≠ "" →
     default (JObj []) (dict_get payload "peer") = JObj info →
     dict_get payload "files" = Some (JObj files) →
     ∃ s2,
       register_peer int_of_str replication_factor s now message client_addr
       = (s2,
          let* tasks := build_replication_tasks_for_peer int_of_str replication_factor s2 pid 5 in
          Ok (create_message now "REGISTRY_RESPONSE"
                (registry_ok (Z.of_nat (length files)) tasks) (JStr pid)))) ∧
  (let again :=
     register_peer decimal 2 index_f 1
       (registry_request 1 "peer1" (JObj [("f.bin", JObj [])]) "127.0.0.1" 7100)
       ("127.0.0.1", 50002) in
   file_index again.1 = file_index index_f ∧
   again.2 = Ok (create_message 1 "REGISTRY_RESPONSE"
                   [("status", JStr "ok"); ("registered_files", JNum 1);
                    ("replication_required", JBool false)]
                   (JStr "peer1"))).
Proof.
  split_and!.
  - intros s now message message' payload payload' client_addr before item after
      Hpid Hp Hp' Hpeer Hf Hf' Hitem.
    unfold register_peer. rewrite <- Hpid, Hp, Hp'. cbn [default from_option id].
    rewrite <- Hpeer, Hf, Hf'. cbn [default from_option id].
    destruct (negb (truthy _)); [done|].
    destruct (default (JObj []) (dict_get payload "peer")); try done.
    destruct (as_str _) as [pid| |]; [|done|done].
    unfold register_files. by rewrite register_items_nameless.
  - intros s now message payload pid info files client_addr Hp Hpid Hne Hinfo Hf.
    rewrite (register_peer_unfold _ _ s now message payload info pid client_addr);
      [| by rewrite Hp | done | done | done].
    rewrite Hf. simpl default. unfold register_files.
    pose proof (register_mapping_count
                  (add_peer s pid (peer_record_of int_of_str info client_addr)) pid files 0)
      as Hcount.
    destruct (register_mapping _ pid files 0) as [s2 n]. simpl in Hcount. subst n.
    exists s2. by rewrite Z.add_0_l.
  - vm_compute. split; reflexivity.
Qed.

Lemma register_peer_counts_entries_witness :
  let files := [("a.txt", JObj [("size_bytes", JNum 12)]); ("z.txt", JNum 3)] in
  let listed := [JStr "x"; JObj [("name", JStr "g.bin")]] in
  let request files := registry_request 1 "peer1" files "127.0.0.1" 7100 in
  nameless (JObj [("size", JNum 4)]) ∧
  register_peer decimal 2 index_f 1 (request (JArr (listed ++ JObj [("size", JNum 4)] :: [])))
    ("127.0.0.1", 50002)
  = register_peer decimal 2 index_f 1 (request (JArr (listed ++ []))) ("127.0.0.1", 50002) ∧
  ∃ s2,
    register_peer decimal 2 index_f 1 (request (JObj files)) ("127.0.0.1", 50002)
    = (s2,
       let* tasks := build_replication_tasks_for_peer decimal 2 s2 "peer1" 5 in
       Ok (create_message 1 "REGISTRY_RESPONSE" (registry_ok 2 tasks) (JStr "peer1"))).
Proof.
  intros files listed request.
  destruct (register_peer_counts_entries decimal 2) as (Hskip & Hcount & _).
  assert (Hitem : nameless (JObj [("size", JNum 4)])) by (split; reflexivity).
  split; [exact Hitem|]. split.
  - eapply (Hskip index_f 1 _ _ _ _ ("127.0.0.1", 50002) listed (JObj [("size", JNum 4)]) []);
      [reflexivity | reflexivity | reflexivity | reflexivity | reflexivity | reflexivity
      | exact Hitem].
  - eapply (Hcount index_f 1 (request (JObj files)) _ "peer1" _ files ("127.0.0.1", 50002));
      [reflexivity | reflexivity | discriminate | reflexivity | reflexivity].
Defined.

(** * Further properties of the file index *)

Section MoreDictFacts.
Context {V : Type}.
Implicit Types (d : list (string * V)) (k : string) (v : V).

Lemma dict_get_del_ne d k k' : k ≠ k' → dict_get (dict_del d k) k' = dict_get d k'.
Proof.
  intros Hne. induction d as [|[k0 v0] d IH]; simpl; [done|].
  destruct (decide (k0 = k)) as [->|Hk]; simpl.
  - by rewrite decide_False.
  - by rewrite IH.
Qed.

Lemma dict_get_del_eq d k : dict_wf d → dict_get (dict_del d k) k = None.
Proof.
  unfold dict_wf, dict_keys. induction d as [|[k0 v0] d IH]; simpl; [done|].
  intros [Hk Hwf]%list.NoDup_cons.
  destruct (decide (k0 = k)) as [->|Hne]; simpl.
  - by apply dict_get_None.
  - rewrite decide_False by done. auto.
Qed.

Lemma dict_set_absent d k v : k ∉ dict_keys d → dict_set d k v = d ++ [(k, v)].
Proof.
  unfold dict_keys. induction d as [|[k0 v0] d IH]; simpl; [done|].
  rewrite not_elem_of_cons. intros [Hne Hni].
  rewrite decide_False by done. by rewrite IH.
Qed.

Lemma dict_set_same d k v : dict_get d k = Some v → dict_set d k v = d.
Proof.
  induction d as [|[k0 v0] d IH]; simpl; [done|].
  destruct (decide (k0 = k)) as [->|Hne].
  - by intros [= ->].
  - intros Hget. by rewrite IH.
Qed.

Lemma dict_wf_del d k : dict_wf d → dict_wf (dict_del d k).
Proof.
  unfold dict_wf, dict_keys. intros Hwf. eapply sublist_NoDup; [exact Hwf|].
  clear Hwf. induction d as [|[k0 v0] d IH]; simpl; [constructor|].
  destruct (decide (k0 = k)); simpl; [by apply sublist_cons | by apply sublist_skip].
Qed.
End MoreDictFacts.

Lemma store_or_drop_Forall (P : string * list entry → Prop)
    (fi : list (string * list entry)) (fname : string) (kept : list entry) :
  Forall P fi → (kept ≠ [] → P (fname, kept)) → Forall P (store_or_drop fi fname kept).
Proof.
  intros Hfi Hkept. unfold store_or_drop. destruct kept as [|x xs].
  - by apply dict_del_set_Forall.
  - apply dict_set_Forall; [by apply Hkept | done].
Qed.

Lemma dict_get_store_or_drop (fi : list (string * list entry)) (fname g : string)
    (kept : list entry) :
  dict_wf fi →
  dict_get (store_or_drop fi fname kept) g =
    if decide (fname = g) then (match kept with [] => None | _ => Some kept end)
    else dict_get fi g.
Proof.
  intros Hwf. unfold store_or_drop. destruct (decide (fname = g)) as [<-|Hne].
  - destruct kept as [|x xs]; [|apply dict_get_set_eq].
    apply dict_get_del_eq. by apply dict_wf_set.
  - destruct kept as [|x xs].
    + by rewrite dict_get_del_ne, dict_get_set_ne.
    + by rewrite dict_get_set_ne.
Qed.

Lemma without_peer_ids_sublist (peer_id : string) (peers : list entry) :
  sublist (map e_peer_id (without_peer peer_id peers)) (map e_peer_id peers).
Proof.
  unfold without_peer. induction peers as [|x peers IH]; simpl; [constructor|].
  rewrite filter_cons. destruct (decide (e_peer_id x ≠ peer_id)); simpl.
  - by apply sublist_skip.
  - by apply sublist_cons.
Qed.

Lemma serves_false_not_in (peer_id : string) (peers : list entry) :
  serves peer_id peers = false → peer_id ∉ map e_peer_id peers.
Proof.
  intros Hs (x & -> & Hx)%list_elem_of_fmap.
  assert (serves (e_peer_id x) peers = true); [|congruence].
  apply serves_spec. eauto.
Qed.

Lemma without_peer_absent (peer_id : string) (peers : list entry) :
  serves peer_id peers = false → without_peer peer_id peers = peers.
Proof.
  intros Hs. unfold without_peer. induction peers as [|x peers IH]; [done|].
  simpl in Hs. apply orb_false_iff in Hs as [Hx Hrest].
  rewrite filter_cons, decide_True; [by rewrite IH|].
  intros Heq. by rewrite bool_decide_eq_true_2 in Hx.
Qed.

Lemma without_peer_idemp (peer_id : string) (peers : list entry) :
  without_peer peer_id (without_peer peer_id peers) = without_peer peer_id peers.
Proof.
  apply without_peer_absent. destruct (serves _ _) eqn:E; [|done].
  apply serves_spec in E as (x & [Hne _]%without_peer_spec & Hx). done.
Qed.

Lemma sweep_Forall (P : string * list entry → Prop) (peer_id : string)
    (items fi : list (string * list entry)) :
  (∀ k l, P (k, l) → P (k, without_peer peer_id l)) →
  Forall P items → Forall P fi → Forall P (fold_left (sweep peer_id) items fi).
Proof.
  intros Hfilter Hitems. revert fi.
  induction Hitems as [|[k l] items Hk _ IH]; intros fi Hfi; simpl; [done|].
  apply IH. apply store_or_drop_Forall; [done|]. intros _. by apply Hfilter.
Qed.

Lemma servings_unique_exec (s : FileIndex) (o : op) :
  servings_unique s → servings_unique (exec s o).
Proof.
  unfold servings_unique. intros Hs.
  assert (Hfilter : ∀ p (k : string) l,
            NoDup (map e_peer_id l) → NoDup (map e_peer_id (without_peer p l))).
  { intros p k l Hl. eapply sublist_NoDup; [exact Hl | apply without_peer_ids_sublist]. }
  destruct o as [p info | p | p f meta | p f]; simpl.
  - done.
  - apply (sweep_Forall _ p); [|done|done]. intros k l. by apply Hfilter.
  - unfold add_file. destruct (dict_get (file_index s) f) as [peers|] eqn:E; simpl.
    + rewrite E. simpl. destruct (serves p peers) eqn:Es; [done|]. simpl.
      apply dict_set_Forall; [|done]. simpl. rewrite map_app. simpl.
      apply list.NoDup_app. split_and!.
      * apply dict_get_elem_of in E. rewrite list.Forall_forall in Hs. apply (Hs _ E).
      * intros x Hx Heq%list_elem_of_singleton. subst x.
        by apply (serves_false_not_in p peers).
      * apply NoDup_singleton.
    + rewrite dict_get_set_eq. simpl. rewrite dict_set_set.
      apply dict_set_Forall; [|done]. simpl. apply NoDup_singleton.
  - unfold remove_file.
    destruct (dict_get (file_index s) f) as [[|x xs]|] eqn:E; [done| |done]. simpl.
    apply store_or_drop_Forall; [done|]. intros _. apply (Hfilter p f).
    apply dict_get_elem_of in E. rewrite list.Forall_forall in Hs. apply (Hs _ E).
Qed.

(** X1.  In an index built by calls of [add_peer], [remove_peer],
    [add_file] and [remove_file], no peer occurs twice among the servings of
    a file, neither in the serving list nor in what [get_peers_for_file]
    returns. *)
Theorem reachable_servings_distinct (s : FileIndex) (file_name : string) :
  reachable s →
  NoDup (map e_peer_id (servings s file_name)) ∧
  NoDup (map r_peer_id (get_peers_for_file s file_name)).
Proof.
  intros Hs.
  assert (Hu : servings_unique s).
  { induction Hs; [constructor | by apply servings_unique_exec]. }
  assert (Hl : NoDup (map e_peer_id (servings s file_name))).
  { unfold servings. destruct (dict_get (file_index s) file_name) as [l|] eqn:E; simpl.
    - apply dict_get_elem_of in E. unfold servings_unique in Hu.
      rewrite list.Forall_forall in Hu. apply (Hu _ E).
    - apply NoDup_nil_2. }
  split; [exact Hl|]. unfold get_peers_for_file. rewrite map_map. exact Hl.
Qed.

Lemma reachable_servings_distinct_witness :
  reachable index_abc ∧
  NoDup (map e_peer_id (servings index_abc "a.txt")) ∧
  NoDup (map r_peer_id (get_peers_for_file index_abc "a.txt")).
Proof.
  assert (Hreach : reachable index_abc).
  { unfold index_abc. repeat apply reachable_exec. apply reachable_init. }
  split; [exact Hreach|]. exact (reachable_servings_distinct index_abc "a.txt" Hreach).
Defined.

Lemma add_file_registry (s : FileIndex) (p f : string) (m : option obj) :
  peer_registry (add_file s p f m) = peer_registry s.
Proof. unfold add_file. by destruct (serves p _). Qed.

Lemma add_file_keeps_servings (s : FileIndex) (p f : string) (m : option obj)
    (g : string) (x : entry) :
  x ∈ servings s g → x ∈ servings (add_file s p f m) g.
Proof.
  unfold add_file, servings.
  destruct (dict_get (file_index s) f) as [peers|] eqn:E; simpl.
  - rewrite E. simpl. destruct (serves p peers); simpl; [done|].
    destruct (decide (f = g)) as [<-|Hne].
    + rewrite dict_get_set_eq, E. simpl. intros Hx. apply elem_of_app. by left.
    + by rewrite dict_get_set_ne.
  - rewrite dict_get_set_eq. simpl.
    destruct (decide (f = g)) as [<-|Hne].
    + rewrite E. simpl. by intros ?%elem_of_nil.
    + by rewrite !dict_get_set_ne.
Qed.

(** X2.  [add_file(p, f, m)] changes the serving list of [f] only: when [p]
    does not serve [f] yet, the serving [{p, m or {}}] goes to the end of
    the list, after the servings that were there; the serving lists of the
    other files and the registry stay. *)
Theorem add_file_servings (s : FileIndex) (p f : string) (m : option obj) :
  servings (add_file s p f m) f
    = (if serves p (servings s f) then servings s f
       else servings s f ++ [{| e_peer_id := p; e_meta := default [] m |}]) ∧
  (∀ g, g ≠ f → servings (add_file s p f m) g = servings s g) ∧
  peer_registry (add_file s p f m) = peer_registry s.
Proof.
  unfold add_file, servings.
  destruct (dict_get (file_index s) f) as [peers|] eqn:E; simpl.
  - rewrite E. simpl. destruct (serves p peers); simpl.
    + by rewrite E.
    + rewrite dict_get_set_eq. split_and!; [done| |done].
      intros g Hg. by rewrite dict_get_set_ne.
  - rewrite dict_get_set_eq. simpl. rewrite dict_get_set_eq. split_and!; [done| |done].
    intros g Hg. by rewrite !dict_get_set_ne.
Qed.

Lemma add_file_listing (s : FileIndex) (p f : string) (m : option obj) :
  list_files s `prefix_of` list_files (add_file s p f m).
Proof.
  unfold list_files, add_file.
  destruct (dict_get (file_index s) f) as [peers|] eqn:E; simpl.
  - rewrite E. simpl. destruct (serves p peers); simpl; [done|].
    rewrite dict_keys_set_present; [done|]. apply dict_get_is_Some. eauto.
  - rewrite dict_get_set_eq. simpl.
    rewrite dict_set_set, dict_keys_set_absent by (by apply dict_get_None).
    by apply prefix_app_r.
Qed.

(** X3.  [list_files()] is in order of first registration: [add_file] of a
    file that is not listed puts its name last, [add_file] of a listed file
    leaves the listing as it is. *)
Theorem add_file_list_files (s : FileIndex) (p f : string) (m : option obj) :
  list_files (add_file s p f m)
    = if decide (f ∈ list_files s) then list_files s else list_files s ++ [f].
Proof.
  unfold list_files, add_file.
  destruct (dict_get (file_index s) f) as [peers|] eqn:E; simpl.
  - assert (Hin : f ∈ dict_keys (file_index s)) by (apply dict_get_is_Some; eauto).
    rewrite decide_True by done. rewrite E. simpl.
    destruct (serves p peers); simpl; [done|]. by apply dict_keys_set_present.
  - assert (Hni : f ∉ dict_keys (file_index s)) by (by apply dict_get_None).
    rewrite decide_False by done. rewrite dict_get_set_eq. simpl.
    rewrite dict_set_set. by apply dict_keys_set_absent.
Qed.

(** X4.  Adding a serving and removing it again gives back the index, when
    the peer did not serve the file before: the file is unlisted again if
    the serving was its only one, and the other servings keep their order. *)
Theorem remove_file_add_file (s : FileIndex) (p f : string) (m : option obj) :
  index_inv s →
  serves p (servings s f) = false →
  remove_file (add_file s p f m) p f = s.
Proof.
  intros [Hwf Hne] Hnot. unfold servings in Hnot. unfold add_file.
  destruct (dict_get (file_index s) f) as [peers|] eqn:E; simpl in *.
  - rewrite E. simpl. rewrite Hnot. unfold remove_file. simpl.
    rewrite dict_get_set_eq.
    assert (Hpeers : peers ≠ []).
    { apply dict_get_elem_of in E. rewrite list.Forall_forall in Hne. apply (Hne _ E). }
    destruct (peers ++ [_]) as [|y ys] eqn:Happ; [by destruct peers|]. rewrite <- Happ.
    assert (Hkept : without_peer p (peers ++ [{| e_peer_id := p; e_meta := default [] m |}])
                    = peers).
    { unfold without_peer. rewrite list.filter_app, filter_cons, decide_False by (simpl; tauto).
      rewrite filter_nil, app_nil_r. by apply without_peer_absent. }
    rewrite Hkept. unfold store_or_drop. destruct peers as [|x xs]; [done|].
    rewrite dict_set_set, dict_set_same by done. by destruct s.
  - rewrite dict_get_set_eq. simpl. rewrite dict_set_set. unfold remove_file. simpl.
    rewrite dict_get_set_eq. unfold without_peer.
    rewrite filter_cons, decide_False by (simpl; tauto). rewrite filter_nil.
    unfold store_or_drop. rewrite dict_set_set.
    apply dict_get_None in E. rewrite dict_set_absent by done.
    rewrite dict_del_app_l by done. simpl. rewrite decide_True by done.
    rewrite app_nil_r. by destruct s.
Qed.

Lemma remove_file_add_file_witness :
  index_inv index_abc ∧
  serves "peer2" (servings index_abc "a.txt") = false ∧
  remove_file (add_file index_abc "peer2" "a.txt" None) "peer2" "a.txt" = index_abc.
Proof.
  assert (Hinv : index_inv index_abc).
  { apply reachable_index_inv. unfold index_abc.
    repeat apply reachable_exec. apply reachable_init. }
  split; [exact Hinv|]. split; [reflexivity|].
  apply (remove_file_add_file index_abc "peer2" "a.txt" None Hinv). reflexivity.
Defined.

(** X5.  [remove_file(p, f)] takes the servings of [p] out of the serving
    list of [f] and keeps the other servings of [f] in their order; the
    serving lists of the other files and the registry stay, so a peer stays
    registered when its last file is removed. *)
Theorem remove_file_servings (s : FileIndex) (p f : string) :
  dict_wf (file_index s) →
  servings (remove_file s p f) f = without_peer p (servings s f) ∧
  (∀ g, g ≠ f → servings (remove_file s p f) g = servings s g) ∧
  peer_registry (remove_file s p f) = peer_registry s.
Proof.
  intros Hwf. unfold remove_file, servings.
  destruct (dict_get (file_index s) f) as [[|x xs]|] eqn:E; simpl.
  - by rewrite E.
  - split_and!; [| |done].
    + rewrite dict_get_store_or_drop, decide_True by done.
      by destruct (without_peer p (x :: xs)).
    + intros g Hg. by rewrite dict_get_store_or_drop, decide_False by done.
  - by rewrite E.
Qed.

Lemma remove_file_servings_witness :
  dict_wf (file_index index_abc) ∧
  servings (remove_file index_abc "peer1" "a.txt") "a.txt"
    = without_peer "peer1" (servings index_abc "a.txt") ∧
  peer_registry (remove_file index_abc "peer1" "a.txt") = peer_registry index_abc.
Proof.
  assert (Hwf : dict_wf (file_index index_abc)).
  { unfold dict_wf. apply (bool_decide_unpack _). vm_compute. reflexivity. }
  split; [exact Hwf|].
  destruct (remove_file_servings index_abc "peer1" "a.txt" Hwf) as (Hf & _ & Hreg).
  split; [exact Hf | exact Hreg].
Defined.

(** X6.  [remove_peer(p)] takes the servings of [p] out of every serving
    list and keeps the other servings in their order; the files that stay
    listed keep their order, and the registry records of the other peers
    stay. *)
Theorem remove_peer_servings (s : FileIndex) (p : string) :
  dict_wf (file_index s) →
  (∀ f, servings (remove_peer s p) f = without_peer p (servings s f)) ∧
  sublist (list_files (remove_peer s p)) (list_files s) ∧
  (∀ q, q ≠ p → get_peer (remove_peer s p) q = get_peer s q).
Proof.
  intros Hwf. split_and!.
  - intros f. unfold servings. rewrite remove_peer_file_index by done.
    rewrite dict_get_swept by done.
    destruct (dict_get (file_index s) f) as [peers|]; simpl; [|done].
    by destruct (without_peer p peers).
  - unfold list_files. rewrite remove_peer_file_index by done. apply swept_keys_sublist.
  - intros q Hq. unfold get_peer. simpl. by apply lookup_delete_ne.
Qed.

Lemma remove_peer_servings_witness :
  dict_wf (file_index index_abc) ∧
  (∀ f, servings (remove_peer index_abc "peer2") f
        = without_peer "peer2" (servings index_abc f)) ∧
  sublist (list_files (remove_peer index_abc "peer2")) (list_files index_abc).
Proof.
  assert (Hwf : dict_wf (file_index index_abc)).
  { unfold dict_wf. apply (bool_decide_unpack _). vm_compute. reflexivity. }
  split; [exact Hwf|].
  destruct (remove_peer_servings index_abc "peer2" Hwf) as (Hf & Hl & _).
  split; [exact Hf | exact Hl].
Defined.

Lemma remove_file_loop (p : string) (reg : gmap string obj)
    (rest done : list (string * list entry)) :
  dict_wf (done ++ rest) →
  Forall (fun item => item.2 ≠ []) rest →
  fold_left (fun s' fname => remove_file s' p fname) (dict_keys rest)
            {| file_index := done ++ rest; peer_registry := reg |}
  = {| file_index := done ++ swept p rest; peer_registry := reg |}.
Proof.
  revert done. induction rest as [|[k peers] rest IH]; intros done Hwf Hne.
  - done.
  - apply list.Forall_cons in Hne as [Hpeers Hne]. simpl in Hpeers.
    assert (Hk : k ∉ dict_keys done).
    { unfold dict_wf, dict_keys in *. rewrite fmap_app in Hwf.
      apply list.NoDup_app in Hwf as (_ & Hdisj & _). intros Hin.
      apply (Hdisj k Hin). simpl. apply elem_of_cons; by left. }
    rewrite swept_cons. simpl. unfold remove_file at 2. simpl.
    rewrite dict_get_app_l by done. simpl. rewrite decide_True by done.
    destruct peers as [|x0 xs0]; [done|].
    unfold store_or_drop. rewrite dict_set_app_l by done. simpl.
    rewrite decide_True by done.
    destruct (without_peer p (x0 :: xs0)) as [|x xs].
    + rewrite dict_del_app_l by done. simpl. rewrite decide_True by done.
      apply IH; [|done].
      unfold dict_wf, dict_keys in *. rewrite fmap_app in *. simpl in Hwf.
      eapply sublist_NoDup; [exact Hwf|].
      apply sublist_app; [done|]. by apply sublist_cons.
    + change (done ++ (k, x :: xs) :: rest) with (done ++ [(k, x :: xs)] ++ rest).
      rewrite app_assoc. rewrite IH.
      * by rewrite <- app_assoc.
      * unfold dict_wf, dict_keys in *. rewrite <- app_assoc.
        rewrite fmap_app in *. done.
      * done.
Qed.

(** X7.  On the file index, [remove_peer(p)] does what [remove_file(p, f)]
    does when called for every listed file [f] in turn; the difference is
    the registry, which only [remove_peer] changes. *)
Theorem remove_peer_is_remove_everywhere (s : FileIndex) (p : string) :
  index_inv s →
  file_index (remove_peer s p) = file_index (remove_everywhere s p) ∧
  peer_registry (remove_everywhere s p) = peer_registry s ∧
  peer_registry (remove_peer s p) = delete p (peer_registry s).
Proof.
  intros [Hwf Hne]. unfold remove_everywhere, list_files.
  pose proof (remove_file_loop p (peer_registry s) (file_index s) [] Hwf Hne) as Hloop.
  simpl in Hloop. destruct s as [fi reg]. simpl in *. rewrite Hloop. simpl.
  split_and!; [|done|done]. by apply (sweep_loop p fi []).
Qed.

Lemma remove_peer_is_remove_everywhere_witness :
  index_inv index_abc ∧
  file_index (remove_peer index_abc "peer1") = file_index (remove_everywhere index_abc "peer1").
Proof.
  assert (Hinv : index_inv index_abc).
  { apply reachable_index_inv. unfold index_abc.
    repeat apply reachable_exec. apply reachable_init. }
  split; [exact Hinv|].
  exact (proj1 (remove_peer_is_remove_everywhere index_abc "peer1" Hinv)).
Defined.

Lemma swept_idemp (p : string) (fi : list (string * list entry)) :
  swept p (swept p fi) = swept p fi.
Proof.
  induction fi as [|[k peers] fi IH]; [done|].
  rewrite swept_cons. destruct (without_peer p peers) as [|x xs] eqn:E; [done|].
  rewrite swept_cons, <- E, without_peer_idemp, E. by rewrite IH.
Qed.

(** Removing a peer twice is removing it once. *)
Theorem remove_peer_idempotent (s : FileIndex) (p : string) :
  dict_wf (file_index s) →
  remove_peer (remove_peer s p) p = remove_peer s p.
Proof.
  intros Hwf.
  assert (Hfi : file_index (remove_peer (remove_peer s p) p) = file_index (remove_peer s p)).
  { rewrite remove_peer_file_index.
    - rewrite remove_peer_file_index by done. apply swept_idemp.
    - rewrite remove_peer_file_index by done.
      eapply sublist_NoDup; [exact Hwf | apply swept_keys_sublist]. }
  assert (Hreg : peer_registry (remove_peer (remove_peer s p) p)
                 = peer_registry (remove_peer s p)).
  { simpl. apply delete_id. apply lookup_delete_eq. }
  destruct (remove_peer (remove_peer s p) p), (remove_peer s p). simpl in *. congruence.
Qed.

Lemma remove_peer_idempotent_witness :
  dict_wf (file_index index_abc) ∧
  remove_peer (remove_peer index_abc "peer1") "peer1" = remove_peer index_abc "peer1".
Proof.
  assert (Hwf : dict_wf (file_index index_abc)).
  { unfold dict_wf. apply (bool_decide_unpack _). vm_compute. reflexivity. }
  split; [exact Hwf|]. exact (remove_peer_idempotent index_abc "peer1" Hwf).
Defined.

(** * Further properties of the replication planner *)

Section MorePlannerFacts.
Variable int_of_str : string -> option Z.
Variable replication_factor : Z.

Lemma scan_files_continue (s : FileIndex) (target : string) (max_tasks : Z)
    (files : list string) (tasks : list task) :
  (∀ f, f ∈ files → scan_file int_of_str replication_factor s target f = Ok Continue) →
  scan_files int_of_str replication_factor s target max_tasks files tasks = Ok tasks.
Proof.
  revert tasks. induction files as [|f files IH]; intros tasks Hall; simpl; [done|].
  rewrite Hall by (apply elem_of_cons; by left). simpl.
  apply IH. intros g Hg. apply Hall. apply elem_of_cons. by right.
Qed.

(** X8.  When every listed file either has as many servings as the
    replication factor asks for or is already served by the target peer,
    [build_replication_tasks_for_peer] returns the empty list, whatever
    [max_tasks] is and whatever the registry records hold. *)
Theorem build_replication_tasks_nothing_to_do (s : FileIndex) (target : string)
    (max_tasks : Z) :
  (∀ f, f ∈ list_files s →
        check_replication replication_factor s f = true ∨
        serves target (servings s f) = true) →
  build_replication_tasks_for_peer int_of_str replication_factor s target max_tasks = Ok [].
Proof.
  intros Hall. unfold build_replication_tasks_for_peer. apply scan_files_continue.
  intros f Hf. unfold scan_file. destruct (Hall f Hf) as [Hrep|Hserves].
  - unfold check_replication in Hrep. by rewrite Hrep.
  - destruct (replication_factor <=? _); [done|].
    unfold get_peers_for_file. by rewrite among_enrich, Hserves.
Qed.

(** X9.  With a replication factor of 1 or less, an index built by calls
    of the index operations gives no tasks to any peer: every listed file
    has a serving. *)
Theorem build_replication_tasks_factor_one (s : FileIndex) (target : string)
    (max_tasks : Z) :
  reachable s →
  replication_factor ≤ 1 →
  build_replication_tasks_for_peer int_of_str replication_factor s target max_tasks = Ok [].
Proof.
  intros Hs HR. unfold build_replication_tasks_for_peer. apply scan_files_continue.
  intros f Hf. unfold scan_file.
  apply (listed_iff_served s f (reachable_index_inv s Hs)) in Hf.
  assert (Hrep : check_replication replication_factor s f = true).
  { unfold check_replication. apply Z.leb_le.
    destruct (get_peers_for_file s f); [done|]. simpl length. lia. }
  unfold check_replication in Hrep. by rewrite Hrep.
Qed.

Lemma scan_files_order (s : FileIndex) (target : string) (max_tasks : Z)
    (files : list string) (tasks out : list task) :
  scan_files int_of_str replication_factor s target max_tasks files tasks = Ok out →
  ∃ new, out = tasks ++ new ∧ sublist (map t_file_name new) files.
Proof.
  revert tasks. induction files as [|fname rest IH]; intros tasks; simpl.
  - intros [= <-]. exists []. by rewrite app_nil_r.
  - destruct (scan_file int_of_str replication_factor s target fname) as [[|t]| |] eqn:Hscan;
      simpl; [| |done|done].
    + intros (new & -> & Hsub)%IH. exists new. split; [done|]. by apply sublist_cons.
    + assert (Hname : t_file_name t = fname).
      { apply scan_file_append in Hscan. tauto. }
      destruct (max_tasks <=? Z.of_nat (length (tasks ++ [t]))).
      * intros [= <-]. exists [t]. split; [done|]. simpl. rewrite Hname.
        apply sublist_skip, sublist_nil_l.
      * intros (new & -> & Hsub)%IH. exists (t :: new). rewrite <- app_assoc.
        split; [done|]. simpl. rewrite Hname. by apply sublist_skip.
Qed.

(** X10.  The tasks follow the order of [list_files()], and no file is
    named by two tasks of one answer. *)
Theorem build_replication_tasks_order (s : FileIndex) (target : string) (max_tasks : Z)
    (out : list task) :
  dict_wf (file_index s) →
  build_replication_tasks_for_peer int_of_str replication_factor s target max_tasks = Ok out →
  sublist (map t_file_name out) (list_files s) ∧ NoDup (map t_file_name out).
Proof.
  intros Hwf (new & -> & Hsub)%scan_files_order. simpl. split; [done|].
  eapply sublist_NoDup; [exact Hwf | exact Hsub].
Qed.

Lemma scan_file_numeric (s : FileIndex) (target fname : string) :
  ports_numeric s →
  ∃ t, scan_file int_of_str replication_factor s target fname = Ok t.
Proof.
  intros Hports. unfold scan_file.
  destruct (replication_factor <=? _); [eauto|].
  destruct (among target _); [eauto|].
  unfold get_peers_for_file. destruct (servings s fname) as [|first others]; simpl; [eauto|].
  set (host := py_or _ _).
  assert (Hport : int_port (default [] (peer_registry s !! e_peer_id first))).
  { destruct (peer_registry s !! e_peer_id first) as [record|] eqn:E; simpl.
    - by apply (Hports _ _ E).
    - by left. }
  destruct Hport as [-> | [n ->]]; simpl.
  - rewrite orb_true_r. eauto.
  - destruct (negb (truthy host) || negb (negb (n =? 0))); simpl; eauto.
Qed.

Lemma scan_files_numeric (s : FileIndex) (target : string) (max_tasks : Z)
    (files : list string) (tasks : list task) :
  ports_numeric s →
  ∃ out, scan_files int_of_str replication_factor s target max_tasks files tasks = Ok out.
Proof.
  intros Hports. revert tasks.
  induction files as [|fname rest IH]; intros tasks; simpl; [eauto|].
  destruct (scan_file_numeric s target fname Hports) as [[|t] ->]; simpl; [apply IH|].
  destruct (max_tasks <=? _); [eauto | apply IH].
Qed.

(** X11.  When every registry record has an [int] port or none, the planner
    does not raise: for every target and bound it returns a list. *)
Theorem build_replication_tasks_returns (s : FileIndex) (target : string) (max_tasks : Z) :
  ports_numeric s →
  ∃ tasks,
    build_replication_tasks_for_peer int_of_str replication_factor s target max_tasks
    = Ok tasks.
Proof.
  intros Hports. unfold build_replication_tasks_for_peer.
  generalize (@nil task) as tasks.
  induction (list_files s) as [|fname rest IH]; intros tasks; simpl; [eauto|].
  destruct (scan_file_numeric s target fname Hports) as [[|t] ->]; simpl; [apply IH|].
  destruct (max_tasks <=? _); [eauto | apply IH].
Qed.
End MorePlannerFacts.

Lemma ports_numeric_index_abc : ports_numeric index_abc.
Proof.
  intros pid record. unfold index_abc. simpl.
  destruct (decide (pid = "peer1")) as [->|Hne].
  - rewrite lookup_insert_eq. intros [= <-]. right. by exists 7100.
  - rewrite lookup_insert_ne by done. by rewrite lookup_empty.
Qed.

Lemma build_replication_tasks_nothing_to_do_witness :
  (∀ f, f ∈ list_files index_abc →
        check_replication 1 index_abc f = true ∨ serves "peer2" (servings index_abc f) = true) ∧
  build_replication_tasks_for_peer decimal 1 index_abc "peer2" 5 = Ok [].
Proof.
  assert (Hall : ∀ f, f ∈ list_files index_abc →
            check_replication 1 index_abc f = true ∨
            serves "peer2" (servings index_abc f) = true).
  { intros f Hf. left. vm_compute in Hf.
    apply elem_of_cons in Hf as [->|Hf]; [reflexivity|].
    apply elem_of_cons in Hf as [->|Hf]; [reflexivity|].
    apply elem_of_cons in Hf as [->|Hf]; [reflexivity|].
    by apply elem_of_nil in Hf. }
  split; [exact Hall|].
  exact (build_replication_tasks_nothing_to_do decimal 1 index_abc "peer2" 5 Hall).
Defined.

Lemma build_replication_tasks_factor_one_witness :
  reachable index_abc ∧ 1 ≤ 1 ∧
  build_replication_tasks_for_peer decimal 1 index_abc "peer9" 5 = Ok [].
Proof.
  assert (Hreach : reachable index_abc).
  { unfold index_abc. repeat apply reachable_exec. apply reachable_init. }
  assert (Hle : 1 ≤ 1) by lia.
  split; [exact Hreach|]. split; [exact Hle|].
  exact (build_replication_tasks_factor_one decimal 1 index_abc "peer9" 5 Hreach Hle).
Defined.

Lemma build_replication_tasks_order_witness :
  let out := [{| t_file_name := "a.txt";
                 t_source := {| src_peer_id := "peer1"; src_host := JStr "127.0.0.1";
                                src_port := 7100 |} |};
              {| t_file_name := "b.bin";
                 t_source := {| src_peer_id := "peer1"; src_host := JStr "127.0.0.1";
                                src_port := 7100 |} |}] in
  dict_wf (file_index index_abc) ∧
  build_replication_tasks_for_peer decimal 2 index_abc "peer2" 2 = Ok out ∧
  sublist (map t_file_name out) (list_files index_abc) ∧ NoDup (map t_file_name out).
Proof.
  intros out.
  assert (Hwf : dict_wf (file_index index_abc)).
  { unfold dict_wf. apply (bool_decide_unpack _). vm_compute. reflexivity. }
  assert (Hrun : build_replication_tasks_for_peer decimal 2 index_abc "peer2" 2 = Ok out)
    by reflexivity.
  split; [exact Hwf|]. split; [exact Hrun|].
  exact (build_replication_tasks_order decimal 2 index_abc "peer2" 2 out Hwf Hrun).
Defined.

Lemma build_replication_tasks_returns_witness :
  ports_numeric index_abc ∧
  ∃ tasks, build_replication_tasks_for_peer decimal 2 index_abc "peer2" 5 = Ok tasks.
Proof.
  split; [exact ports_numeric_index_abc|].
  exact (build_replication_tasks_returns decimal 2 index_abc "peer2" 5 ports_numeric_index_abc).
Defined.

Lemma build_replication_tasks_sound_witness :
  ∃ out,
    build_replication_tasks_for_peer decimal 2 index_abc "peer2" 2 = Ok out ∧
    Z.of_nat (length out) ≤ Z.max 2 1.
Proof.
  eexists. split; [reflexivity|].
  eapply (build_replication_tasks_sound decimal 2 index_abc "peer2" 2). reflexivity.
Defined.

(** * Further properties of the handlers *)

Lemma extends_refl (s : FileIndex) : extends s s.
Proof. split; [auto | reflexivity]. Qed.

Lemma extends_trans (s1 s2 s3 : FileIndex) : extends s1 s2 → extends s2 s3 → extends s1 s3.
Proof. intros [H1 P1] [H2 P2]. split; [auto | by etrans]. Qed.

Lemma extends_add_file (s : FileIndex) (p f : string) (m : option obj) :
  extends s (add_file s p f m).
Proof.
  split.
  - intros g x. apply add_file_keeps_servings.
  - apply add_file_listing.
Qed.

Lemma extends_add_peer (s : FileIndex) (p : string) (record : obj) :
  extends s (add_peer s p record).
Proof. split; [auto | reflexivity]. Qed.

Lemma register_mapping_extends (s : FileIndex) (pid : string) (files : obj) (n : Z) :
  extends s (register_mapping s pid files n).1 ∧
  peer_registry (register_mapping s pid files n).1 = peer_registry s.
Proof.
  revert s n. induction files as [|[fname meta] files IH]; intros s n; simpl.
  - split; [apply extends_refl | done].
  - destruct (IH (add_file s pid fname (Some (dict_or_empty meta))) (n + 1)) as [He Hr].
    split.
    + eapply extends_trans; [apply extends_add_file | exact He].
    + by rewrite Hr, add_file_registry.
Qed.

Lemma register_items_extends (s : FileIndex) (pid : string) (files : list json) (n : Z) :
  extends s (register_items s pid files n).1 ∧
  peer_registry (register_items s pid files n).1 = peer_registry s.
Proof.
  revert s n. induction files as [|item files IH]; intros s n; simpl.
  - split; [apply extends_refl | done].
  - destruct item as [| | | | |fields]; try apply IH.
    destruct (truthy _); [|apply IH].
    destruct (as_str _) as [f| |]; simpl; [|split; [apply extends_refl | done]..].
    destruct (IH (add_file s pid f (Some (item_meta fields))) (n + 1)) as [He Hr].
    split.
    + eapply extends_trans; [apply extends_add_file | exact He].
    + by rewrite Hr, add_file_registry.
Qed.

Lemma register_files_extends (s : FileIndex) (pid : string) (files : json) :
  extends s (register_files s pid files).1 ∧
  peer_registry (register_files s pid files).1 = peer_registry s.
Proof.
  unfold register_files. destruct files as [| | | |l|m]; simpl;
    try (split; [apply extends_refl | done]).
  - apply register_items_extends.
  - pose proof (register_mapping_extends s pid m 0) as H.
    by destruct (register_mapping s pid m 0).
Qed.

Section MoreHandlerFacts.
Variable int_of_str : string -> option Z.
Variable replication_factor : Z.

(** The index that [register_peer] leaves, however the call ends: the given
    one, or the one with the record of the peer written and the files
    registered as far as the loop came. *)
Lemma register_peer_index (s : FileIndex) (now : Z) (message : obj)
    (client_addr : string * Z) :
  (register_peer int_of_str replication_factor s now message client_addr).1 = s ∨
  ∃ pid info payload,
    dict_get message "peer_id" = Some (JStr pid) ∧
    default (JObj []) (dict_get message "payload") = JObj payload ∧
    default (JObj []) (dict_get payload "peer") = JObj info ∧
    (register_peer int_of_str replication_factor s now message client_addr).1
    = (register_files (add_peer s pid (peer_record_of int_of_str info client_addr)) pid
         (default (JObj []) (dict_get payload "files"))).1.
Proof.
  unfold register_peer.
  destruct (default (JObj []) (dict_get message "payload")) as [| | | | |payload] eqn:Hp;
    try (by left).
  destruct (negb (truthy _)); [by left|].
  destruct (default (JObj []) (dict_get payload "peer")) as [| | | | |info] eqn:Hi;
    try (by left).
  destruct (dict_get message "peer_id") as [[| | |pid| |]|] eqn:Hpid; simpl; try (by left).
  right. exists pid, info, payload. split_and!; [done..|].
  by destruct (register_files _ pid _) as [s2 [registered|e|]].
Qed.

(** X12.  A registration never takes anything away, however it ends: every
    serving that was in the index is still there, the listed files are
    still listed, first and in the same order, and the registry records of
    the peers other than the sender are the same. *)
Theorem register_peer_extends (s : FileIndex) (now : Z) (message : obj)
    (client_addr : string * Z) :
  let s' := (register_peer int_of_str replication_factor s now message client_addr).1 in
  (∀ f x, x ∈ servings s f → x ∈ servings s' f) ∧
  list_files s `prefix_of` list_files s' ∧
  (∀ q, dict_get message "peer_id" ≠ Some (JStr q) → get_peer s' q = get_peer s q).
Proof.
  intros s'. subst s'.
  destruct (register_peer_index s now message client_addr)
    as [-> | (pid & info & payload & Hpid & _ & _ & ->)].
  - split_and!; [auto | reflexivity | done].
  - set (s1 := add_peer s pid _).
    destruct (register_files_extends s1 pid (default (JObj []) (dict_get payload "files")))
      as [[Hserv Hlist] Hreg].
    split_and!; [exact Hserv | exact Hlist |].
    intros q Hq. unfold get_peer. rewrite Hreg. simpl.
    apply lookup_insert_ne. intros ->. by apply Hq.
Qed.

Lemma int_port_peer_record (pid : string) (info : obj) (client_addr : string * Z) :
  dict_wf info →
  ∃ n, dict_get (registry_record pid (peer_record_of int_of_str info client_addr)) "port"
       = Some (JNum n).
Proof.
  intros Hwf. unfold registry_record, peer_record_of. destruct client_addr as [h p].
  eexists. rewrite dict_get_update.
  - by rewrite dict_get_set_eq.
  - by do 2 apply dict_wf_set.
Qed.

Lemma ports_numeric_add_peer (s : FileIndex) (pid : string) (record : obj) :
  ports_numeric s → int_port (registry_record pid record) →
  ports_numeric (add_peer s pid record).
Proof.
  intros Hs Hrec q r. simpl. destruct (decide (pid = q)) as [->|Hne].
  - rewrite lookup_insert_eq. by intros [= <-].
  - rewrite lookup_insert_ne by done. apply Hs.
Qed.

(** X13.  Registrations keep the registry fit for the planner.  On an index
    whose registry records have [int] ports, a REGISTRY_REQUEST with a
    non-empty [str] peer_id, an object (or no) ["peer"] field and a mapping
    of files is always answered with status "ok", never with an exception:
    the record it writes has an [int] port, and so the index it leaves has
    [int] ports again. *)
Theorem register_peer_mapping_returns (s : FileIndex) (now : Z) (message payload info : obj)
    (pid : string) (files : obj) (client_addr : string * Z) :
  ports_numeric s →
  default (JObj []) (dict_get message "payload") = JObj payload →
  dict_get message "peer_id" = Some (JStr pid) →
  pid ≠ "" →
  default (JObj []) (dict_get payload "peer") = JObj info →
  dict_wf info →
  dict_get payload "files" = Some (JObj files) →
  ∃ s2 tasks,
    register_peer int_of_str replication_factor s now message client_addr
    = (s2, Ok (create_message now "REGISTRY_RESPONSE"
                 (registry_ok (Z.of_nat (length files)) tasks) (JStr pid))) ∧
    ports_numeric s2 ∧
    get_peer s2 pid = Some (registry_record pid (peer_record_of int_of_str info client_addr)).
Proof.
  intros Hports Hp Hpid Hne Hinfo Hwf Hfiles.
  rewrite (register_peer_unfold _ _ s now message payload info pid client_addr) by done.
  rewrite Hfiles. simpl default. unfold register_files.
  set (s1 := add_peer s pid (peer_record_of int_of_str info client_addr)).
  pose proof (register_mapping_count s1 pid files 0) as Hcount.
  destruct (register_mapping_extends s1 pid files 0) as [_ Hreg].
  destruct (register_mapping s1 pid files 0) as [s2 n]. simpl in Hcount, Hreg. subst n.
  assert (Hports2 : ports_numeric s2).
  { intros q r. rewrite Hreg. apply ports_numeric_add_peer; [done|].
    right. by apply int_port_peer_record. }
  destruct (scan_files_numeric int_of_str replication_factor s2 pid 5 (list_files s2) []
              Hports2) as [tasks Htasks].
  fold (build_replication_tasks_for_peer int_of_str replication_factor s2 pid 5) in Htasks.
  exists s2, tasks. rewrite Htasks. simpl. rewrite Z.add_0_l. split_and!; [done..|].
  unfold get_peer. rewrite Hreg. simpl. apply lookup_insert_eq.
Qed.

Lemma register_mapping_serves (s : FileIndex) (pid : string) (files : obj) (n : Z)
    (f : string) :
  f ∈ dict_keys files →
  serves pid (servings (register_mapping s pid files n).1 f) = true.
Proof.
  unfold dict_keys. revert s n.
  induction files as [|[fname meta] files IH]; intros s n; simpl.
  - by intros ?%elem_of_nil.
  - intros [->|Hin]%elem_of_cons; [|by apply IH].
    set (s1 := add_file s pid fname _).
    assert (Hs1 : serves pid (servings s1 fname) = true) by apply serves_after_add_file.
    apply serves_spec in Hs1 as (x & Hx & Hid).
    apply serves_spec. exists x. split; [|done].
    by apply (register_mapping_extends s1 pid files (n + 1)).
Qed.

(** X14.  Register, then search.  After a registration by [pid] with a
    mapping of files that has the non-empty name [f], a search for [f]
    built by [make_search_request] is answered with status "ok", and the
    results hold an entry for [pid] whose [peer] field is the record the
    registration wrote, with the declared host and port. *)
Theorem register_then_search (s : FileIndex) (now : Z) (message payload info : obj)
    (pid : string) (files : obj) (client_addr : string * Z) (f asker : string) (now' : Z) :
  default (JObj []) (dict_get message "payload") = JObj payload →
  dict_get message "peer_id" = Some (JStr pid) →
  pid ≠ "" →
  default (JObj []) (dict_get payload "peer") = JObj info →
  dict_get payload "files" = Some (JObj files) →
  f ∈ dict_keys files →
  f ≠ "" →
  let s2 := (register_peer int_of_str replication_factor s now message client_addr).1 in
  let record := registry_record pid (peer_record_of int_of_str info client_addr) in
  (∃ m, {| r_peer_id := pid; r_peer := record; r_meta := m |} ∈ get_peers_for_file s2 f) ∧
  search s2 now' (make_search_request now' asker (JStr f))
  = Ok (create_message now' "SEARCH_RESPONSE"
          (search_ok (JStr f) (get_peers_for_file s2 f)) (JStr asker)).
Proof.
  intros Hp Hpid Hne Hinfo Hfiles Hf Hfne s2 record.
  assert (Hs2 : s2 = (register_mapping (add_peer s pid (peer_record_of int_of_str info
                        client_addr)) pid files 0).1).
  { subst s2.
    rewrite (register_peer_unfold _ _ s now message payload info pid client_addr) by done.
    rewrite Hfiles. simpl default. unfold register_files.
    by destruct (register_mapping _ pid files 0). }
  split.
  - pose proof (register_mapping_serves
                  (add_peer s pid (peer_record_of int_of_str info client_addr))
                  pid files 0 f Hf) as Hserves.
    destruct (register_mapping_extends
                (add_peer s pid (peer_record_of int_of_str info client_addr)) pid files 0)
      as [_ Hreg].
    rewrite <- Hs2 in Hserves, Hreg.
    apply serves_spec in Hserves as (x & Hx & Hid).
    exists (e_meta x). unfold get_peers_for_file.
    apply list_elem_of_fmap. exists x. split; [|done].
    unfold enrich. rewrite Hid, Hreg. simpl. by rewrite lookup_insert_eq.
  - destruct (search_string_or_object s2 now' (make_search_request now' asker (JStr f))
                [("query", JObj [("file_name", JStr f)])] eq_refl) as (_ & Hobj & _).
    rewrite (Hobj [("file_name", JStr f)] f eq_refl eq_refl).
    by rewrite decide_False.
Qed.

(** X15.  Every search request that [make_search_request] builds from a
    file name is answered, none makes [search] raise: with status "error"
    for the empty name, and otherwise with status "ok" and the peers of
    the file, which is the empty list for a file that nobody serves. *)
Theorem search_answers_built_requests (s : FileIndex) (now : Z) (asker f : string) :
  search s now (make_search_request now asker (JStr f))
  = Ok (create_message now "SEARCH_RESPONSE"
          (if decide (f = "") then search_error
           else search_ok (JStr f) (get_peers_for_file s f))
          (JStr asker)) ∧
  (f ∉ list_files s → get_peers_for_file s f = []).
Proof.
  split.
  - destruct (search_string_or_object s now (make_search_request now asker (JStr f))
                [("query", JObj [("file_name", JStr f)])] eq_refl) as (_ & Hobj & _).
    rewrite (Hobj [("file_name", JStr f)] f eq_refl eq_refl).
    by destruct (decide (f = "")).
  - intros Hf. apply dict_get_None in Hf. unfold get_peers_for_file, servings.
    by rewrite Hf.
Qed.
End MoreHandlerFacts.

Lemma register_files_reachable (int_of_str : string -> option Z) (s : FileIndex)
    (pid : string) (files : json) :
  reachable s → reachable (register_files s pid files).1.
Proof.
  intros Hs. unfold register_files. destruct files as [| | | |l|m]; simpl; try done.
  - generalize 0 as n. revert s Hs.
    induction l as [|item l IH]; intros s Hs n; simpl; [done|].
    destruct item as [| | | | |fields]; try by apply IH.
    destruct (truthy _); [|by apply IH].
    destruct (as_str _) as [f| |]; simpl; [|done|done].
    apply IH. apply (reachable_exec s (AddFile pid f (Some (item_meta fields))) Hs).
  - assert (Hm : ∀ n s, reachable s → reachable (register_mapping s pid m n).1).
    { induction m as [|[fname meta] m IH]; intros n s' Hs'; simpl; [done|].
      apply IH. apply (reachable_exec s' (AddFile pid fname (Some (dict_or_empty meta))) Hs'). }
    specialize (Hm 0 s Hs). by destruct (register_mapping s pid m 0).
Qed.

(** X16.  The registry handler only moves the index along calls of
    [add_peer] and [add_file]: the index it leaves, however the call ends,
    is one that calls of the index operations build, so what holds of all
    of those (no empty serving list, no peer twice in a list) holds after
    every registration. *)
Theorem register_peer_reachable (int_of_str : string -> option Z) (replication_factor : Z)
    (s : FileIndex) (now : Z) (message : obj) (client_addr : string * Z) :
  reachable s →
  reachable (register_peer int_of_str replication_factor s now message client_addr).1.
Proof.
  intros Hs.
  destruct (register_peer_index int_of_str replication_factor s now message client_addr)
    as [-> | (pid & info & payload & _ & _ & _ & ->)]; [done|].
  apply (register_files_reachable int_of_str).
  apply (reachable_exec s (AddPeer pid (peer_record_of int_of_str info client_addr)) Hs).
Qed.

Lemma register_peer_reachable_witness :
  reachable init ∧ reachable index_f.
Proof.
  split; [apply reachable_init|].
  apply (register_peer_reachable decimal 2 init 0
           (registry_request 0 "peer1" (JObj [("f.bin", JObj [])]) "127.0.0.1" 7100)
           ("127.0.0.1", 50000)).
  apply reachable_init.
Defined.

Lemma register_peer_mapping_returns_witness :
  let message := registry_request 0 "peer1" (JObj [("f.bin", JObj [])]) "127.0.0.1" 7100 in
  ports_numeric init ∧
  ∃ s2 tasks,
    register_peer decimal 2 init 0 message ("127.0.0.1", 50000)
    = (s2, Ok (create_message 0 "REGISTRY_RESPONSE" (registry_ok 1 tasks) (JStr "peer1"))) ∧
    ports_numeric s2.
Proof.
  intros message.
  assert (Hinit : ports_numeric init).
  { intros pid record. simpl. by rewrite lookup_empty. }
  split; [exact Hinit|].
  destruct (register_peer_mapping_returns decimal 2 init 0 message
              [("files", JObj [("f.bin", JObj [])]);
               ("peer", JObj [("peer_id", JStr "peer1"); ("host", JStr "127.0.0.1");
                              ("port", JNum 7100)])]
              [("peer_id", JStr "peer1"); ("host", JStr "127.0.0.1"); ("port", JNum 7100)]
              "peer1" [("f.bin", JObj [])] ("127.0.0.1", 50000) Hinit)
    as (s2 & tasks & Hrun & Hports & _).
  - reflexivity.
  - reflexivity.
  - discriminate.
  - reflexivity.
  - unfold dict_wf. apply (bool_decide_unpack _). vm_compute. reflexivity.
  - reflexivity.
  - exists s2, tasks. split; [exact Hrun | exact Hports].
Defined.

Lemma register_then_search_witness :
  let message := registry_request 0 "peer1" (JObj [("f.bin", JObj [])]) "127.0.0.1" 7100 in
  let s2 := (register_peer decimal 2 init 0 message ("127.0.0.1", 50000)).1 in
  "f.bin" ∈ dict_keys [("f.bin", JObj [])] ∧
  search s2 9 (make_search_request 9 "peer2" (JStr "f.bin"))
  = Ok (create_message 9 "SEARCH_RESPONSE"
          (search_ok (JStr "f.bin") (get_peers_for_file s2 "f.bin")) (JStr "peer2")).
Proof.
  intros message s2.
  assert (Hin : "f.bin" ∈ dict_keys [("f.bin", JObj [])]).
  { apply elem_of_cons. by left. }
  split; [exact Hin|].
  eapply (proj2 (register_then_search decimal 2 init 0 message
                   [("files", JObj [("f.bin", JObj [])]);
                    ("peer", JObj [("peer_id", JStr "peer1"); ("host", JStr "127.0.0.1");
                                   ("port", JNum 7100)])]
                   [("peer_id", JStr "peer1"); ("host", JStr "127.0.0.1");
                    ("port", JNum 7100)]
                   "peer1" [("f.bin", JObj [])] ("127.0.0.1", 50000) "f.bin" "peer2" 9
                   eq_refl eq_refl _ eq_refl eq_refl Hin _)).
  Unshelve. all: discriminate.
Defined.

(** * Configuration lookup *)

Lemma split_dots_nonempty (s : string) : split_dots s ≠ [].
Proof.
  induction s as [|c s IH]; simpl; [done|].
  destruct (Ascii.eqb c "."); [done|]. by destruct (split_dots s).
Qed.

Lemma split_dots_app (p q : string) :
  split_dots (String.append p (String "." q)) = split_dots p ++ split_dots q.
Proof.
  induction p as [|c p IH]; simpl; [done|].
  rewrite IH. destruct (Ascii.eqb c "."); [done|].
  pose proof (split_dots_nonempty p). by destruct (split_dots p).
Qed.

Lemma split_dots_no_dot (s : string) : has_dot s = false → split_dots s = [s].
Proof.
  induction s as [|c s IH]; simpl; [done|].
  destruct (Ascii.eqb c "."); simpl; [done|]. by intros ->%IH.
Qed.

Lemma split_dots_parts (s : string) : Forall (fun part => has_dot part = false) (split_dots s).
Proof.
  induction s as [|c s IH]; simpl; [by repeat constructor|].
  destruct (Ascii.eqb c ".") eqn:E; [by constructor|].
  pose proof (split_dots_nonempty s).
  destruct (split_dots s) as [|part parts]; [done|].
  apply list.Forall_cons in IH as [Hpart Hparts]. constructor; [|done].
  simpl. by rewrite E.
Qed.

Lemma walk_app (node : json) (keys keys' : list string) :
  walk node (keys ++ keys') =
    match walk node keys with
    | Some inner => walk inner keys'
    | None => None
    end.
Proof.
  revert node. induction keys as [|key keys IH]; intros node; simpl; [done|].
  destruct node as [| | | | |fields]; try done.
  by destruct (dict_get fields key).
Qed.

Lemma append_nonempty (p q : string) : q ≠ "" → String.append p q ≠ "".
Proof. destruct p; [done|]. simpl. discriminate. Qed.

(** X17.  Dotted access composes: [get("p.q")] looks [q] up in the node
    that the keys of [p] lead to, and gives the default when they lead
    nowhere. *)
Theorem config_get_compose (config : json) (p q : string) (dflt : json) :
  q ≠ "" →
  config_get config (String.append p (String "." q)) dflt =
    match walk config (split_dots p) with
    | Some node => config_get node q dflt
    | None => dflt
    end.
Proof.
  intros Hq. unfold config_get.
  assert (Hpath : String.eqb (String.append p (String "." q)) "" = false).
  { apply String.eqb_neq, append_nonempty. discriminate. }
  rewrite Hpath. apply String.eqb_neq in Hq. rewrite split_dots_app, walk_app.
  destruct (walk config (split_dots p)); [|done]. by rewrite Hq.
Qed.

Lemma config_get_compose_witness :
  let config := JObj [("server", JObj [("host", JStr "127.0.0.1"); ("port", JNum 7000)])] in
  "port" ≠ "" ∧
  config_get config "server.port" (JNum 1) = JNum 7000.
Proof.
  intros config.
  assert (Hq : "port" ≠ "") by discriminate.
  split; [exact Hq|].
  etrans; [exact (config_get_compose config "server" "port" (JNum 1) Hq) | reflexivity].
Defined.

(** X18.  A key without a dot is looked up in the top-level object as
    [dict.get] does: the default stands in for a key that is absent only,
    and a key that is present with the value [null] gives [null]. *)
Theorem config_get_key (fields : obj) (key : string) (dflt : json) :
  key ≠ "" →
  has_dot key = false →
  config_get (JObj fields) key dflt = default dflt (dict_get fields key) ∧
  (dict_get fields key = Some JNull → config_get (JObj fields) key dflt = JNull).
Proof.
  intros Hne Hdot.
  assert (Hget : config_get (JObj fields) key dflt = default dflt (dict_get fields key)).
  { unfold config_get. apply String.eqb_neq in Hne. rewrite Hne.
    rewrite split_dots_no_dot by done. simpl. by destruct (dict_get fields key). }
  split; [exact Hget|]. intros Hnull. by rewrite Hget, Hnull.
Qed.

Lemma config_get_key_witness :
  "replication" ≠ "" ∧ has_dot "replication" = false ∧
  config_get (JObj [("replication", JNull)]) "replication" (JNum 2) = JNull.
Proof.
  assert (Hne : "replication" ≠ "") by discriminate.
  assert (Hdot : has_dot "replication" = false) by reflexivity.
  split; [exact Hne|]. split; [exact Hdot|].
  apply (config_get_key [("replication", JNull)] "replication" (JNum 2) Hne Hdot).
  reflexivity.
Defined.

(** X19.  What dotted access cannot reach: a configuration that is not an
    object, and the keys that have a dot in them.  When every key of the
    top-level object has a dot, [get] gives the default for every path. *)
Theorem config_get_unreachable (config : json) (key_path : string) (dflt : json) :
  (∀ fields, config = JObj fields → ∀ k, k ∈ dict_keys fields → has_dot k = true) →
  config_get config key_path dflt = dflt.
Proof.
  intros Hkeys. unfold config_get. destruct (String.eqb key_path ""); [done|].
  pose proof (split_dots_nonempty key_path) as Hne.
  pose proof (split_dots_parts key_path) as Hparts.
  destruct (split_dots key_path) as [|part parts]; [done|]. simpl.
  destruct config as [| | | | |fields]; try done.
  apply list.Forall_cons in Hparts as [Hpart _].
  destruct (dict_get fields part) eqn:E; [|done].
  assert (Hin : part ∈ dict_keys fields) by (apply dict_get_is_Some; eauto).
  rewrite (Hkeys fields eq_refl part Hin) in Hpart. done.
Qed.

Lemma config_get_unreachable_witness :
  let config := JObj [("server.port", JNum 7000)] in
  (∀ fields, config = JObj fields → ∀ k, k ∈ dict_keys fields → has_dot k = true) ∧
  config_get config "server.port" (JNum 1) = JNum 1.
Proof.
  intros config.
  assert (Hkeys : ∀ fields, config = JObj fields →
                  ∀ k, k ∈ dict_keys fields → has_dot k = true).
  { intros fields [= <-] k Hk. apply list_elem_of_singleton in Hk. by subst k. }
  split; [exact Hkeys|].
  exact (config_get_unreachable config "server.port" (JNum 1) Hkeys).
Defined.

(** * The port of a peer *)

Lemma leading_digits_all (ds rest : list ascii) :
  Forall (fun c => is_digit c = true) ds →
  match rest with [] => True | c :: _ => is_digit c = false end →
  leading_digits (ds ++ rest) = ds.
Proof.
  intros Hds Hrest. induction Hds as [|c ds Hc _ IH]; simpl.
  - destruct rest as [|c rest]; [done|]. simpl. by rewrite Hrest.
  - by rewrite Hc, IH.
Qed.

Lemma newline_not_digit (c : ascii) : is_digit c = true → Ascii.eqb c "010"%char = false.
Proof.
  intros Hc. destruct (Ascii.eqb_spec c "010"%char) as [->|]; [|done]. discriminate.
Qed.

Lemma list_ascii_of_string_append (a b : string) :
  list_ascii_of_string (String.append a b)
  = list_ascii_of_string a ++ list_ascii_of_string b.
Proof. induction a as [|c a IH]; simpl; [done|]. by rewrite IH. Qed.

(** X20.  The index of a peer is read from the digits that end its id and
    from nothing before them: for an id made of a stem that does not end in
    a digit and a non-empty run of digits, the run is what is handed to
    [int]. *)
Theorem numeric_suffix_reads_trailing_digits (stem digits : string) :
  digits ≠ "" →
  Forall (fun c => is_digit c = true) (list_ascii_of_string digits) →
  match rev (list_ascii_of_string stem) with
  | [] => True
  | c :: _ => is_digit c = false
  end →
  numeric_suffix (String.append stem digits) = digits.
Proof.
  intros Hne Hdigits Hstem.
  unfold numeric_suffix. rewrite list_ascii_of_string_append, rev_app_distr.
  assert (Hrev : Forall (fun c => is_digit c = true) (rev (list_ascii_of_string digits))).
  { apply list.Forall_forall. intros c Hc%list_elem_of_In%in_rev%list_elem_of_In.
    rewrite list.Forall_forall in Hdigits. by apply Hdigits. }
  destruct (rev (list_ascii_of_string digits)) as [|d ds] eqn:Hds.
  { apply (f_equal (@rev ascii)) in Hds. rewrite rev_involutive in Hds. simpl in Hds.
    destruct digits; [done | discriminate]. }
  simpl. apply list.Forall_cons in Hrev as [Hd Hrest].
  rewrite (newline_not_digit d Hd), Hd.
  rewrite (leading_digits_all ds _ Hrest Hstem).
  rewrite <- Hds, rev_involutive. apply string_of_list_ascii_of_string.
Qed.

Lemma numeric_suffix_reads_trailing_digits_witness :
  "12" ≠ "" ∧ numeric_suffix "peer12" = "12".
Proof.
  assert (Hne : "12" ≠ "") by discriminate.
  split; [exact Hne|].
  apply (numeric_suffix_reads_trailing_digits "peer" "12" Hne).
  - repeat constructor.
  - reflexivity.
Defined.

(** X21.  The port of a peer is never below the base port; a peer whose id
    has no numeric suffix, or the suffix 0 or 1, has the base port itself,
    so such peers on one host share a port; and two peers whose suffixes
    denote different numbers from 1 upwards have different ports. *)
Theorem compute_port_spread (int_of_str : string -> option Z) (base_port : Z) :
  (∀ peer_id, base_port ≤ compute_port int_of_str peer_id base_port) ∧
  (∀ peer_id, numeric_suffix peer_id = "" →
              compute_port int_of_str peer_id base_port = base_port) ∧
  (∀ peer_id n, int_of_str (numeric_suffix peer_id) = Some n → n ≤ 1 →
                compute_port int_of_str peer_id base_port = base_port) ∧
  (∀ p q n m, numeric_suffix p ≠ "" → numeric_suffix q ≠ "" →
              int_of_str (numeric_suffix p) = Some n →
              int_of_str (numeric_suffix q) = Some m →
              1 ≤ n → 1 ≤ m →
              (compute_port int_of_str p base_port = compute_port int_of_str q base_port
               ↔ n = m)).
Proof.
  split_and!.
  - intros peer_id. unfold compute_port.
    destruct (numeric_suffix peer_id); [lia|].
    destruct (int_of_str _); lia.
  - intros peer_id Hs. unfold compute_port. by rewrite Hs.
  - intros peer_id n Hn Hle. unfold compute_port. revert Hn.
    destruct (numeric_suffix peer_id); [done|]. intros ->. lia.
  - intros p q n m Hp Hq Hn Hm Hn1 Hm1. unfold compute_port. revert Hn Hm.
    destruct (numeric_suffix p); [done|]. destruct (numeric_suffix q); [done|].
    intros -> ->. lia.
Qed.

Lemma compute_port_spread_witness :
  compute_port decimal "peer0" 7100 = 7100 ∧
  compute_port decimal "peer1" 7100 = 7100 ∧
  (compute_port decimal "peer2" 7100 = compute_port decimal "peer12" 7100 ↔ 2 = 12).
Proof.
  destruct (compute_port_spread decimal 7100) as (_ & _ & Hlow & Hdiff).
  split; [apply (Hlow "peer0" 0); [reflexivity | lia]|].
  split; [apply (Hlow "peer1" 1); [reflexivity | lia]|].
  apply (Hdiff "peer2" "peer12" 2 12); [discriminate | discriminate | reflexivity
                                        | reflexivity | lia | lia].
Defined.

(** * Transfers *)

Lemma write_file_chunks_nonempty (chunks : list bytes) :
  Forall (fun chunk => chunk ≠ []) chunks → write_file_chunks chunks = concat chunks.
Proof.
  induction 1 as [|chunk chunks Hc _ IH]; simpl; [done|].
  destruct chunk; [done|]. by rewrite IH.
Qed.

Lemma file_chunks_positive (n : Z) (content : bytes) :
  0 < n →
  concat (file_chunks n content) = content ∧
  Forall (fun chunk => chunk ≠ [] ∧ Z.of_nat (length chunk) ≤ n) (file_chunks n content).
Proof.
  intros Hn. funelim (file_chunks n content); try lia.
  - split; [done | constructor].
  - destruct (H Hn) as [Hcat Hall]. split.
    + simpl. rewrite Hcat. apply take_drop.
    + constructor; [|done]. split.
      * destruct (Z.to_nat n) eqn:E; [lia | done].
      * rewrite length_take. lia.
Qed.

Lemma recv_positive (n : Z) (sock : list bytes) :
  0 < n → Forall (fun segment => segment ≠ []) sock →
  ∃ data sock',
    recv n sock = inr (data, sock') ∧
    concat sock = data ++ concat sock' ∧
    Z.of_nat (length data) ≤ n ∧
    Forall (fun segment => segment ≠ []) sock' ∧
    (data = [] → sock = []).
Proof.
  intros Hn Hsock. unfold recv. rewrite (proj2 (Z.ltb_ge n 0)) by lia.
  destruct Hsock as [|segment rest Hseg Hrest].
  - exists [], []. repeat split; try done. simpl. lia.
  - destruct (Z.of_nat (length segment) <=? n) eqn:Hfit.
    + apply Z.leb_le in Hfit. exists segment, rest. repeat split; try done.
    + apply Z.leb_gt in Hfit. eexists _, _. split_and!; [done| | | |].
      * simpl. by rewrite app_assoc, take_drop.
      * rewrite length_take. lia.
      * constructor; [|done]. intros Hdrop.
        apply (f_equal (@length Byte.byte)) in Hdrop. rewrite length_drop in Hdrop.
        simpl in Hdrop. lia.
      * intros Htake. apply (f_equal (@length Byte.byte)) in Htake.
        rewrite length_take in Htake. simpl in Htake. destruct segment; [done|].
        simpl in Htake. lia.
Qed.

Lemma chunk_stream_positive (chunk_size : Z) (bytes_remaining : option Z)
    (sock : list bytes) :
  0 < chunk_size →
  match bytes_remaining with Some r => 0 < r | None => True end →
  Forall (fun segment => segment ≠ []) sock →
  ∃ chunks,
    chunk_stream chunk_size bytes_remaining sock = (chunks, Ok tt) ∧
    Forall (fun chunk => chunk ≠ []) chunks ∧
    concat chunks = match bytes_remaining with
                    | Some r => take (Z.to_nat r) (concat sock)
                    | None => concat sock
                    end.
Proof.
  intros Hcs. funelim (chunk_stream chunk_size bytes_remaining sock).
  all: intros Hr Hsock.
  all: match goal with
       | Hr0 : recv ?n ?s = _, Hs : Forall _ ?s |- _ =>
           assert (Hsize : 0 < n)
             by (unfold read_size;
                 repeat match goal with
                        | |- context [match ?x with _ => _ end] => destruct x
                        | |- context [?x =? 0] => destruct (Z.eqb_spec x 0)
                        end; lia);
           destruct (recv_positive n s Hsize Hs)
             as (data0 & sock0 & Hrecv0 & Hcat & Hlen & Hsock0 & Hempty);
           rewrite Hr0 in Hrecv0; try discriminate Hrecv0;
           injection Hrecv0 as ? ?; subst data0 sock0
       end.
  - exists []. rewrite (Hempty eq_refl). split_and!; [done | constructor |].
    simpl. destruct bytes_remaining; [by rewrite take_nil | done].
  - match goal with
    | IH : _ → _ → _ → ∃ _, _ |- _ => destruct (IH Hcs I Hsock0) as (chunks & -> & Hall & Hconcat)
    end.
    exists ((b :: data) :: chunks). split_and!; [done | by constructor |].
    simpl concat. by rewrite Hconcat, Hcat.
  - exists [b :: data]. split_and!; [done | by repeat constructor |].
    simpl concat. rewrite app_nil_r, Hcat.
    unfold read_size in Hlen. rewrite (proj2 (Z.eqb_neq r 0)) in Hlen by lia.
    symmetry. apply take_app_length'. lia.
  - unfold read_size in Hlen. rewrite (proj2 (Z.eqb_neq r 0)) in Hlen by lia.
    assert (Hpos : 0 < r - Z.of_nat (length (b :: data))) by lia.
    match goal with
    | IH : _ → _ → _ → ∃ _, _ |- _ =>
        destruct (IH Hcs Hpos Hsock0) as (chunks & -> & Hall & Hconcat)
    end.
    exists ((b :: data) :: chunks). split_and!; [done | by constructor |].
    simpl concat. rewrite Hconcat, Hcat.
    rewrite take_app_ge by lia.
    by replace (Z.to_nat r - length (b :: data))%nat
      with (Z.to_nat (r - Z.of_nat (length (b :: data)))) by lia.
Qed.

Lemma recv_degenerate (n : Z) (sock : list bytes) :
  (n < 0 → recv n sock = inl ValueError) ∧
  (n = 0 → ∃ sock', recv n sock = inr ([], sock')).
Proof.
  split.
  - intros Hn. unfold recv. by rewrite (proj2 (Z.ltb_lt n 0)).
  - intros ->. unfold recv. simpl. destruct sock as [|segment rest]; [eauto|].
    destruct (Z.of_nat (length segment) <=? 0) eqn:E; [|eauto].
    apply Z.leb_le in E. destruct segment; [eauto | simpl in E; lia].
Qed.

Lemma chunk_stream_degenerate (chunk_size : Z) (bytes_remaining : option Z)
    (sock : list bytes) :
  match bytes_remaining with Some r => 0 < r | None => True end →
  (chunk_size = 0 → chunk_stream chunk_size bytes_remaining sock = ([], Ok tt)) ∧
  (chunk_size < 0 → chunk_stream chunk_size bytes_remaining sock = ([], Raise ValueError)).
Proof.
  intros Hr.
  assert (Hsize : read_size chunk_size bytes_remaining = Z.min chunk_size
            (match bytes_remaining with Some r => r | None => chunk_size end)).
  { unfold read_size. destruct bytes_remaining as [r|]; [|lia].
    by rewrite (proj2 (Z.eqb_neq r 0)) by lia. }
  split; intros Hcs.
  - assert (Hzero : read_size chunk_size bytes_remaining = 0)
      by (rewrite Hsize; destruct bytes_remaining; lia).
    destruct (proj2 (recv_degenerate _ sock) Hzero) as [sock' Hrecv].
    clear Hsize Hzero Hr. funelim (chunk_stream chunk_size bytes_remaining sock).
    all: match goal with
         | Hr0 : recv _ _ = _ , Hr1 : recv _ _ = _ |- _ =>
             rewrite Hr0 in Hr1; try discriminate Hr1
         end.
    done.
  - assert (Hneg : read_size chunk_size bytes_remaining < 0)
      by (rewrite Hsize; destruct bytes_remaining; lia).
    pose proof (proj1 (recv_degenerate _ sock) Hneg) as Hrecv.
    clear Hsize Hneg Hr. funelim (chunk_stream chunk_size bytes_remaining sock).
    all: match goal with
         | Hr0 : recv _ _ = _ , Hr1 : recv _ _ = _ |- _ =>
             rewrite Hr0 in Hr1; try discriminate Hr1
         end.
    by injection Hrecv as ->.
Qed.

(** X22.  The server reads a file in chunks that put together are the file:
    with a chunk size other than 0, [read_file_chunks] yields non-empty
    chunks whose concatenation is the content, each of at most
    [chunk_size] bytes when the size is positive; with a chunk size of 0,
    and no configured size to stand in for it, it yields nothing. *)
Theorem read_file_chunks_content (configured : Z) (chunk_size : option Z) (content : bytes) :
  let n := effective_chunk_size configured chunk_size in
  (n ≠ 0 →
   concat (read_file_chunks configured chunk_size content) = content ∧
   Forall (fun chunk => chunk ≠ []) (read_file_chunks configured chunk_size content)) ∧
  (0 < n →
   Forall (fun chunk => Z.of_nat (length chunk) ≤ n)
          (read_file_chunks configured chunk_size content)) ∧
  (n = 0 → read_file_chunks configured chunk_size content = []).
Proof.
  intros n. unfold read_file_chunks. fold n. clearbody n. split_and!.
  - intros Hn. destruct (Z_lt_dec 0 n) as [Hpos|Hneg].
    + destruct (file_chunks_positive n content Hpos) as [Hcat Hall]. split; [done|].
      eapply list.Forall_impl; [exact Hall|]. by intros chunk [? _].
    + funelim (file_chunks n content); try lia; [done|].
      simpl. rewrite app_nil_r. split; [done | by repeat constructor].
  - intros Hn. destruct (file_chunks_positive n content Hn) as [_ Hall].
    eapply list.Forall_impl; [exact Hall|]. by intros chunk [_ ?].
  - intros ->. by funelim (file_chunks 0 content).
Qed.

(** X23.  The client takes from the connection exactly the bytes of the
    announced size, however the stream is cut into segments: with a
    positive chunk size and a positive [file_size], the file written is the
    first [file_size] bytes of the stream, never more, and all of the stream
    when the other side closes before; with a [file_size] of 0 or less the
    client reads until the other side closes.  The loop ends without an
    exception in both cases. *)
Theorem receive_file_exact (file_size chunk_size : Z) (sock : list bytes) :
  0 < chunk_size →
  Forall (fun segment => segment ≠ []) sock →
  receive_file file_size chunk_size sock
  = (if 0 <? file_size then take (Z.to_nat file_size) (concat sock) else concat sock,
     Ok tt).
Proof.
  intros Hcs Hsock. unfold receive_file.
  destruct (0 <? file_size) eqn:Hfs.
  - apply Z.ltb_lt in Hfs.
    destruct (chunk_stream_positive chunk_size (Some file_size) sock Hcs Hfs Hsock)
      as (chunks & -> & Hall & Hcat).
    by rewrite write_file_chunks_nonempty, Hcat.
  - destruct (chunk_stream_positive chunk_size None sock Hcs I Hsock)
      as (chunks & -> & Hall & Hcat).
    by rewrite write_file_chunks_nonempty, Hcat.
Qed.

Lemma receive_file_exact_witness :
  let sock := [[Byte.x68; Byte.x65; Byte.x6c]; [Byte.x6c; Byte.x6f; Byte.x21]] in
  0 < 2 ∧
  Forall (fun segment : bytes => segment ≠ []) sock ∧
  receive_file 5 2 sock = (hello, Ok tt).
Proof.
  intros sock.
  assert (Hsize : 0 < 2) by lia.
  assert (Hsock : Forall (fun segment : bytes => segment ≠ []) sock)
    by (repeat constructor; discriminate).
  split; [exact Hsize|]. split; [exact Hsock|].
  exact (receive_file_exact 5 2 sock Hsize Hsock).
Defined.

(** Degenerate chunk sizes.  A chunk size of 0 in the response makes
    the client stop at once and leave an empty file without an error,
    whatever was sent; a negative one makes [recv] raise [ValueError]
    before a byte is written. *)
Theorem receive_file_degenerate (file_size chunk_size : Z) (sock : list bytes) :
  (chunk_size = 0 → receive_file file_size chunk_size sock = ([], Ok tt)) ∧
  (chunk_size < 0 → receive_file file_size chunk_size sock = ([], Raise ValueError)).
Proof.
  unfold receive_file.
  assert (Hr : match (if 0 <? file_size then Some file_size else None) with
               | Some r => 0 < r
               | None => True
               end).
  { destruct (0 <? file_size) eqn:E; [by apply Z.ltb_lt | done]. }
  destruct (chunk_stream_degenerate chunk_size _ sock Hr) as [Hzero Hneg].
  split; intros Hcs; [rewrite (Hzero Hcs) | rewrite (Hneg Hcs)]; done.
Qed.

(** * Framing *)

Lemma split_line_none (joined : bytes) :
  split_line joined = None ↔ newline ∉ joined.
Proof.
  induction joined as [|b joined IH]; simpl.
  - split; [intros _; apply not_elem_of_nil | done].
  - destruct (Byte.eqb b newline) eqn:E.
    + apply Byte.byte_dec_bl in E. subst b. split; [done|].
      intros Hnot. exfalso. apply Hnot. left.
    + rewrite not_elem_of_cons, <- IH.
      destruct (split_line joined) as [[line after]|]; split; try done.
      * by intros [_ ?].
      * intros _. apply Byte.eqb_false in E. split; [congruence | done].
Qed.

Lemma split_line_app (joined more : bytes) :
  split_line (joined ++ more)
  = match split_line joined with
    | Some (line, after) => Some (line, after ++ more)
    | None => match split_line more with
              | Some (line, after) => Some (joined ++ line, after)
              | None => None
              end
    end.
Proof.
  induction joined as [|b joined IH]; simpl.
  - by destruct (split_line more) as [[line after]|].
  - destruct (Byte.eqb b newline); [done|]. rewrite IH.
    destruct (split_line joined) as [[line after]|]; [done|].
    by destruct (split_line more) as [[line after]|].
Qed.

Lemma split_line_first (line tail : bytes) :
  newline ∉ line → split_line (line ++ newline :: tail) = Some (line, tail).
Proof.
  intros Hline. rewrite split_line_app, (proj2 (split_line_none line) Hline).
  simpl. by rewrite app_nil_r.
Qed.

Lemma receive_line_stream (joined : bytes) (sock : list bytes) :
  Forall (fun segment => segment ≠ []) sock →
  split_line joined = None →
  match split_line (joined ++ concat sock) with
  | Some (line, after) =>
      ∃ dropped sock', receive_line joined sock = Line line sock' ∧
                       after = dropped ++ concat sock' ∧
                       Forall (fun segment => segment ≠ []) sock'
  | None => receive_line joined sock = ConnectionClosed
  end.
Proof.
  funelim (receive_line joined sock); intros Hsock Hjoined.
  all: match goal with
       | Hr0 : recv ?n ?s = _, Hs : Forall _ ?s |- _ =>
           destruct (recv_positive n s ltac:(done) Hs)
             as (data0 & sock0 & Hrecv0 & Hcat & Hlen & Hsock0 & Hempty);
           rewrite Hr0 in Hrecv0; try discriminate Hrecv0;
           injection Hrecv0 as ? ?; subst data0 sock0
       end.
  - rewrite (Hempty eq_refl). simpl. by rewrite app_nil_r, Hjoined.
  - rewrite Hcat, app_assoc, split_line_app.
    match goal with Hs : split_line (_ ++ _ :: _) = Some _ |- _ => rewrite Hs end.
    by eexists _, _.
  - rewrite Hcat, app_assoc.
    match goal with IH : _ → _ → match _ with _ => _ end |- _ => by apply IH end.
Qed.

Lemma receive_line_first (line tail : bytes) (sock : list bytes) :
  Forall (fun segment => segment ≠ []) sock →
  newline ∉ line →
  concat sock = line ++ newline :: tail →
  ∃ dropped sock',
    receive_line [] sock = Line line sock' ∧
    tail = dropped ++ concat sock' ∧
    Forall (fun segment => segment ≠ []) sock'.
Proof.
  intros Hsock Hline Hstream.
  pose proof (receive_line_stream [] sock Hsock eq_refl) as Hrun. simpl in Hrun.
  by rewrite Hstream, (split_line_first line tail Hline) in Hrun.
Qed.

(** X24.  A message is framed by its first newline, however the bytes
    arrive.  When the stream holds a line, a newline and any tail,
    [receive_message] reads exactly the line, whatever the segments are;
    what it leaves on the socket is the end of the tail, the bytes of the
    tail that came in the same [recv] as the newline being dropped.  When
    the stream ends before a newline, it raises "Connection closed while
    reading message" and returns no partial message. *)
Theorem receive_line_frames (sock : list bytes) :
  Forall (fun segment => segment ≠ []) sock →
  (∀ line tail,
     newline ∉ line →
     concat sock = line ++ newline :: tail →
     ∃ dropped sock',
       receive_line [] sock = Line line sock' ∧
       tail = dropped ++ concat sock' ∧
       Forall (fun segment => segment ≠ []) sock') ∧
  (newline ∉ concat sock → receive_line [] sock = ConnectionClosed).
Proof.
  intros Hsock.
  pose proof (receive_line_stream [] sock Hsock eq_refl) as Hrun. simpl in Hrun.
  split.
  - intros line tail Hline Hstream.
    by rewrite Hstream, (split_line_first line tail Hline) in Hrun.
  - intros Hnone. by rewrite (proj2 (split_line_none (concat sock)) Hnone) in Hrun.
Qed.

Lemma receive_line_frames_witness :
  let sock := [[Byte.x71]; [newline; Byte.x68]; [Byte.x65]] in
  Forall (fun segment : bytes => segment ≠ []) sock ∧
  ∃ dropped sock',
    receive_line [] sock = Line [Byte.x71] sock' ∧
    [Byte.x68; Byte.x65] = dropped ++ concat sock' ∧
    Forall (fun segment : bytes => segment ≠ []) sock'.
Proof.
  intros sock.
  assert (Hsock : Forall (fun segment : bytes => segment ≠ []) sock)
    by (repeat constructor; discriminate).
  split; [exact Hsock|].
  apply (proj1 (receive_line_frames sock Hsock) [Byte.x71] [Byte.x68; Byte.x65]).
  - rewrite list_elem_of_singleton. discriminate.
  - reflexivity.
Defined.

(** Bytes that follow the newline in the segment that carries it are
    lost: when a line, its newline and further bytes arrive in one segment
    of at most 4096 bytes, [receive_message] returns the line and leaves on
    the socket only the segments after that one. *)
Theorem receive_line_drops_rest (line extra : bytes) (sock : list bytes) :
  newline ∉ line →
  Z.of_nat (length (line ++ newline :: extra)) ≤ 4096 →
  receive_line [] ((line ++ newline :: extra) :: sock) = Line line sock.
Proof.
  intros Hline Hfit.
  assert (Hwhole : ∀ got, recv 4096 ((line ++ newline :: extra) :: sock) = got →
                         got = inr (line ++ newline :: extra, sock)).
  { intros got <-. unfold recv. change (4096 <? 0) with false. cbv iota.
    by rewrite (proj2 (Z.leb_le _ _) Hfit). }
  pose proof (split_line_first line extra Hline) as Hsplit.
  remember ((line ++ newline :: extra) :: sock) as wire eqn:Hwire.
  remember [] as joined eqn:Hjoined.
  funelim (receive_line joined wire).
  all: match goal with
       | Hr : recv _ _ = _ |- _ =>
           pose proof (Hwhole _ Hr) as Hgot;
           first [discriminate Hgot | injection Hgot as Hdata Hrest]
       end.
  - by destruct line.
  - match goal with
    | Hs : split_line ([] ++ _) = _ |- _ =>
        simpl app in Hs; rewrite Hdata, Hsplit in Hs; injection Hs as Hl _
    end.
    by rewrite Hl, Hrest.
  - match goal with
    | Hs : split_line ([] ++ _) = _ |- _ =>
        simpl app in Hs; rewrite Hdata, Hsplit in Hs; discriminate Hs
    end.
Qed.

Lemma recv_first_segments (n : Z) (first rest : list bytes) :
  0 < n →
  Forall (fun segment => segment ≠ []) first →
  first ≠ [] →
  ∃ data first',
    recv n (first ++ rest) = inr (data, first' ++ rest) ∧
    concat first = data ++ concat first' ∧
    Forall (fun segment => segment ≠ []) first' ∧
    data ≠ [].
Proof.
  intros Hn Hfirst Hne. destruct Hfirst as [|segment first Hseg Hfirst]; [done|].
  unfold recv. rewrite (proj2 (Z.ltb_ge n 0)) by lia. simpl app.
  destruct (Z.of_nat (length segment) <=? n) eqn:Hfit.
  - exists segment, first. split_and!; [by rewrite Hfit | done..].
  - exists (take (Z.to_nat n) segment), (drop (Z.to_nat n) segment :: first).
    split_and!; [by rewrite Hfit | | |]; apply Z.leb_gt in Hfit.
    + simpl. by rewrite app_assoc, take_drop.
    + constructor; [|done]. intros Hdrop.
      apply (f_equal (@length Byte.byte)) in Hdrop. rewrite length_drop in Hdrop.
      simpl in Hdrop. lia.
    + intros Htake. apply (f_equal (@length Byte.byte)) in Htake.
      rewrite length_take in Htake. simpl in Htake. lia.
Qed.

Lemma cut_line (data tail line : bytes) :
  data ++ tail = line ++ [newline] →
  newline ∉ line →
  ((newline ∉ data) ∧ (∃ line', line = data ++ line' ∧ tail = line' ++ [newline])) ∨
  (tail = [] ∧ data = line ++ [newline]).
Proof.
  revert line. induction data as [|b data IH]; intros line Hcut Hline.
  - left. split; [apply not_elem_of_nil | by exists line].
  - destruct line as [|c line]; simpl in Hcut; injection Hcut as -> Hcut.
    + right. by destruct data, tail.
    + apply not_elem_of_cons in Hline as [Hc Hline].
      destruct (IH line Hcut Hline) as [(Hdata & line' & -> & ->) | [-> ->]].
      * left. split; [by apply not_elem_of_cons | by exists line'].
      * by right.
Qed.

Lemma concat_nonempty_nil (segments : list bytes) :
  Forall (fun segment => segment ≠ []) segments → concat segments = [] → segments = [].
Proof. intros [|segment rest Hseg _]; [done|]. simpl. by destruct segment. Qed.

Lemma receive_line_own_segments (joined text : bytes) (first rest : list bytes) :
  Forall (fun segment => segment ≠ []) first →
  newline ∉ joined →
  newline ∉ text →
  concat first = text ++ [newline] →
  receive_line joined (first ++ rest) = Line (joined ++ text) rest.
Proof.
  remember (first ++ rest) as sock eqn:Hsock.
  revert text first Hsock.
  funelim (receive_line joined sock); intros text first -> Hfirst Hjoined Htext Hcat.
  all: assert (Hne : first ≠ []) by (intros ->; by destruct text).
  all: destruct (recv_first_segments 4096 first rest ltac:(done) Hfirst Hne)
         as (data0 & first' & Hrecv0 & Hcut & Hfirst' & Hdata0).
  all: match goal with
       | Hr : recv _ _ = _ |- _ =>
           rewrite Hr in Hrecv0; try discriminate Hrecv0; injection Hrecv0 as Hd Hs
       end.
  all: subst data0; try done.
  all: rewrite Hcat in Hcut; symmetry in Hcut;
       destruct (cut_line (b :: data) (concat first') text Hcut Htext)
         as [(Hfree & text' & -> & Hrest) | [Hnil Hwhole]].
  - exfalso.
    assert (Hnone : split_line (joined ++ b :: data) = None)
      by (apply split_line_none; rewrite elem_of_app; tauto).
    match goal with Hsp : split_line _ = Some _ |- _ => by rewrite Hnone in Hsp end.
  - apply (concat_nonempty_nil _ Hfirst') in Hnil. subst first'. simpl in Hs. subst sock'.
    match goal with
    | Hsp : split_line _ = Some _ |- _ =>
        rewrite Hwhole, app_assoc, split_line_first in Hsp
          by (rewrite elem_of_app; tauto);
        by injection Hsp as <- _
    end.
  - rewrite app_assoc.
    match goal with
    | IH : ∀ _ _ _, _ = _ → _ |- _ => apply (IH rest text' first'); [done | done | | | done]
    end.
    + rewrite elem_of_app. tauto.
    + rewrite elem_of_app in Htext. tauto.
  - exfalso.
    match goal with
    | Hsp : split_line _ = None |- _ =>
        apply split_line_none in Hsp; apply Hsp;
        rewrite Hwhole, !elem_of_app, list_elem_of_singleton; tauto
    end.
Qed.

(** * Peer to peer *)

Lemma sent_chunks_nonempty (chunks : list bytes) :
  Forall (fun chunk => chunk ≠ []) chunks → sent_chunks chunks = chunks.
Proof.
  induction 1 as [|chunk chunks Hc _ IH]; simpl; [done|].
  destruct chunk; [done|]. by rewrite IH.
Qed.

Lemma is_str_refl (s : string) : is_str s (JStr s) = true.
Proof. apply String.eqb_refl. Qed.

Section PeerFacts.
Variable int_of_str : string -> option Z.
Variable loads : bytes -> option json.
Variable dumps : json -> bytes.
Variable py_str : json -> string.

Lemma fetch_metadata (expected : string) (own now : Z) (peer_id file_name : json)
    (file_size chunk_size : Z) (line : bytes) (sock sock' : list bytes) :
  receive_line [] sock = Line line sock' →
  loads line = Some (JObj (create_message now expected
                             (file_metadata file_name file_size chunk_size) peer_id)) →
  fetch int_of_str loads expected own sock
  = Ok (Written (receive_file file_size chunk_size sock').1
                (receive_file file_size chunk_size sock').2).
Proof.
  intros Hline Hloads. unfold fetch, receive_message. rewrite Hline, Hloads.
  lazy -[receive_file is_str]. rewrite is_str_refl.
  by destruct (receive_file file_size chunk_size sock').
Qed.

Lemma fetch_error (expected : string) (own now : Z) (peer_id : json) (payload : obj)
    (line : bytes) (sock sock' : list bytes) :
  receive_line [] sock = Line line sock' →
  loads line = Some (JObj (create_message now expected payload peer_id)) →
  dict_get payload "status" = Some (JStr "error") →
  fetch int_of_str loads expected own sock = Ok RuntimeError.
Proof.
  intros Hline Hloads Hstatus. unfold fetch, receive_message. rewrite Hline, Hloads.
  assert (Hget : py_get (JObj payload) "status" JNull = Ok (JStr "error"))
    by (simpl; by rewrite Hstatus).
  assert (Htype : py_get (JObj (create_message now expected payload peer_id)) "type" JNull
                  = Ok (JStr expected)) by reflexivity.
  assert (Hpayload : py_get (JObj (create_message now expected payload peer_id))
                       "payload" (JObj []) = Ok (JObj payload)) by reflexivity.
  rewrite Htype. cbn [bind]. rewrite is_str_refl. cbn [negb].
  rewrite Hpayload. cbn [bind]. by rewrite Hget.
Qed.

Lemma handle_client_request (now t : Z) (peer_id client name : string)
    (shared : string -> option bytes) (chunk_size : Z) (conn rest : list bytes)
    (replicate : bool) :
  let response := if replicate then "REPLICATE_RESPONSE" else "OBTAIN_RESPONSE" in
  receive_message loads conn
  = Message (JObj ((if replicate then make_replicate_request else make_obtain_request)
                     t client name)) rest →
  name ≠ "" →
  handle_client loads dumps py_str now peer_id shared chunk_size conn
  = Ok match shared name with
       | Some content =>
           serialize dumps
             (create_message now response
                (file_metadata (JStr name) (Z.of_nat (length content)) chunk_size)
                (JStr peer_id))
           :: sent_chunks (read_file_chunks chunk_size (Some chunk_size) content)
       | None =>
           [serialize dumps
              (create_message now response (file_not_found (JStr name)) (JStr peer_id))]
       end.
Proof.
  intros response Hrequest Hname. unfold handle_client. rewrite Hrequest.
  apply String.eqb_neq in Hname.
  destruct replicate; lazy -[String.eqb serialize sent_chunks read_file_chunks length Z.of_nat];
    rewrite Hname; by destruct (shared name).
Qed.
Lemma handle_client_sends (now t : Z) (peer_id client name : string)
    (shared : string -> option bytes) (chunk_size : Z) (conn rest : list bytes)
    (content : bytes) (replicate : bool) :
  let response := if replicate then "REPLICATE_RESPONSE" else "OBTAIN_RESPONSE" in
  let meta := create_message now response
                (file_metadata (JStr name) (Z.of_nat (length content)) chunk_size)
                (JStr peer_id) in
  receive_message loads conn
  = Message (JObj ((if replicate then make_replicate_request else make_obtain_request)
                     t client name)) rest →
  name ≠ "" →
  shared name = Some content →
  0 < chunk_size →
  ∃ chunks,
    handle_client loads dumps py_str now peer_id shared chunk_size conn
    = Ok (serialize dumps meta :: chunks) ∧
    concat chunks = content.
Proof.
  intros response meta Hrequest Hname Hshared Hsize.
  rewrite (handle_client_request now t peer_id client name shared chunk_size conn rest
             replicate Hrequest Hname), Hshared.
  assert (Hn : effective_chunk_size chunk_size (Some chunk_size) = chunk_size).
  { unfold effective_chunk_size. by rewrite (proj2 (Z.eqb_neq chunk_size 0)) by lia. }
  destruct (file_chunks_positive chunk_size content Hsize) as [Hcontent Hall].
  eexists. split; [done|]. unfold read_file_chunks. rewrite Hn.
  rewrite sent_chunks_nonempty; [done|].
  eapply list.Forall_impl; [exact Hall|]. by intros chunk [? _].
Qed.

Lemma receive_file_all (chunk_size : Z) (content : bytes) (sock : list bytes) :
  0 < chunk_size →
  Forall (fun segment => segment ≠ []) sock →
  (length (concat sock) ≤ length content)%nat →
  receive_file (Z.of_nat (length content)) chunk_size sock = (concat sock, Ok tt).
Proof.
  intros Hsize Hsock Hlen. unfold receive_file.
  destruct (0 <? Z.of_nat (length content)) eqn:Hfs.
  - apply Z.ltb_lt in Hfs.
    destruct (chunk_stream_positive chunk_size (Some (Z.of_nat (length content))) sock
                Hsize Hfs Hsock) as (chunks & -> & Hall & Hcat).
    by rewrite write_file_chunks_nonempty, Hcat, Nat2Z.id, take_ge.
  - destruct (chunk_stream_positive chunk_size None sock Hsize I Hsock)
      as (chunks & -> & Hall & Hcat).
    by rewrite write_file_chunks_nonempty, Hcat.
Qed.

(** X25.  What a download writes is an end of the file served.  When a
    peer answers an obtain or a replicate request for a file it shares,
    with a positive chunk size, and the requester reads the answer from
    any segmentation of what was sent, [download_file] and
    [replicate_file] return without an exception and the file written is
    the content with some bytes at its start left out: those that
    [receive_message] took from the socket together with the metadata. *)
Theorem fetch_receives_suffix (replicate : bool) (now t : Z) (peer_id client name : string)
    (shared : string -> option bytes) (chunk_size own : Z) (conn rest : list bytes)
    (content : bytes) :
  let response := if replicate then "REPLICATE_RESPONSE" else "OBTAIN_RESPONSE" in
  let meta := create_message now response
                (file_metadata (JStr name) (Z.of_nat (length content)) chunk_size)
                (JStr peer_id) in
  receive_message loads conn
  = Message (JObj ((if replicate then make_replicate_request else make_obtain_request)
                     t client name)) rest →
  name ≠ "" →
  shared name = Some content →
  0 < chunk_size →
  newline ∉ dumps (JObj meta) →
  loads (dumps (JObj meta)) = Some (JObj meta) →
  ∃ sent,
    handle_client loads dumps py_str now peer_id shared chunk_size conn = Ok sent ∧
    ∀ sock,
      Forall (fun segment => segment ≠ []) sock →
      concat sock = concat sent →
      ∃ dropped file,
        (if replicate then replicate_file else download_file) int_of_str loads own sock
        = Ok (Written file (Ok tt)) ∧
        content = dropped ++ file.
Proof.
  intros response meta Hrequest Hname Hshared Hsize Hline Hloads.
  destruct (handle_client_sends now t peer_id client name shared chunk_size conn rest
              content replicate Hrequest Hname Hshared Hsize) as (chunks & Hsent & Hcat).
  eexists. split; [exact Hsent|]. intros sock Hsock Hstream.
  destruct (receive_line_first (dumps (JObj meta)) content sock Hsock Hline)
    as (dropped & sock' & Hread & Htail & Hsock').
  { rewrite Hstream. simpl. rewrite Hcat. unfold serialize. by rewrite <- app_assoc. }
  exists dropped, (concat sock'). split; [|done].
  assert (Hfetch : fetch int_of_str loads response own sock
                   = Ok (Written (concat sock') (Ok tt))).
  { rewrite (fetch_metadata response own now (JStr peer_id) (JStr name)
               (Z.of_nat (length content)) chunk_size _ sock sock' Hread Hloads).
    rewrite receive_file_all; [done..|].
    rewrite Htail, length_app. lia. }
  by destruct replicate.
Qed.

(** X26.  A transfer is byte-exact when the metadata arrives on its own.
    When a peer answers an obtain or a replicate request for a file it
    shares, with a positive chunk size, and the segments that carry the
    metadata message carry nothing else, [download_file] and
    [replicate_file] write the content of the file served, whatever the
    segments of the message and of the file are. *)
Theorem fetch_exact_after_metadata (replicate : bool) (now t : Z)
    (peer_id client name : string) (shared : string -> option bytes)
    (chunk_size own : Z) (conn rest : list bytes) (content : bytes) :
  let response := if replicate then "REPLICATE_RESPONSE" else "OBTAIN_RESPONSE" in
  let meta := create_message now response
                (file_metadata (JStr name) (Z.of_nat (length content)) chunk_size)
                (JStr peer_id) in
  receive_message loads conn
  = Message (JObj ((if replicate then make_replicate_request else make_obtain_request)
                     t client name)) rest →
  name ≠ "" →
  shared name = Some content →
  0 < chunk_size →
  newline ∉ dumps (JObj meta) →
  loads (dumps (JObj meta)) = Some (JObj meta) →
  ∃ message chunks,
    handle_client loads dumps py_str now peer_id shared chunk_size conn
    = Ok (message :: chunks) ∧
    ∀ sock_message sock_file,
      Forall (fun segment => segment ≠ []) sock_message →
      Forall (fun segment => segment ≠ []) sock_file →
      concat sock_message = message →
      concat sock_file = concat chunks →
      (if replicate then replicate_file else download_file) int_of_str loads own
        (sock_message ++ sock_file)
      = Ok (Written content (Ok tt)).
Proof.
  intros response meta Hrequest Hname Hshared Hsize Hline Hloads.
  destruct (handle_client_sends now t peer_id client name shared chunk_size conn rest
              content replicate Hrequest Hname Hshared Hsize) as (chunks & Hsent & Hcat).
  eexists _, _. split; [exact Hsent|].
  intros sock_message sock_file Hmessage Hfile Hfirst Hrest.
  pose proof (receive_line_own_segments [] (dumps (JObj meta)) sock_message sock_file
                Hmessage (not_elem_of_nil _) Hline Hfirst) as Hread.
  simpl in Hread.
  assert (Hfetch : fetch int_of_str loads response own (sock_message ++ sock_file)
                   = Ok (Written content (Ok tt))).
  { rewrite (fetch_metadata response own now (JStr peer_id) (JStr name)
               (Z.of_nat (length content)) chunk_size _ _ sock_file Hread Hloads).
    rewrite receive_file_all; [|done..| by rewrite Hrest, Hcat].
    simpl. by rewrite Hrest, Hcat. }
  by destruct replicate.
Qed.

(** X27.  The bytes of a file that arrive with its metadata are lost.
    When a peer answers an obtain or a replicate request for a file it
    shares and the metadata message arrives in one segment of at most 4096
    bytes together with the first bytes of the file, [download_file] and
    [replicate_file] return without an exception and write only the bytes
    that arrive after that segment: a file that arrives whole in the
    segment of its metadata is written empty. *)
Theorem fetch_loses_bytes_read_with_metadata (replicate : bool) (now t : Z)
    (peer_id client name : string) (shared : string -> option bytes)
    (chunk_size own : Z) (conn rest : list bytes) (content : bytes) :
  let response := if replicate then "REPLICATE_RESPONSE" else "OBTAIN_RESPONSE" in
  let meta := create_message now response
                (file_metadata (JStr name) (Z.of_nat (length content)) chunk_size)
                (JStr peer_id) in
  receive_message loads conn
  = Message (JObj ((if replicate then make_replicate_request else make_obtain_request)
                     t client name)) rest →
  name ≠ "" →
  shared name = Some content →
  0 < chunk_size →
  newline ∉ dumps (JObj meta) →
  loads (dumps (JObj meta)) = Some (JObj meta) →
  ∃ message chunks,
    handle_client loads dumps py_str now peer_id shared chunk_size conn
    = Ok (message :: chunks) ∧
    ∀ head sock_file,
      Forall (fun segment => segment ≠ []) sock_file →
      concat chunks = head ++ concat sock_file →
      Z.of_nat (length (message ++ head)) ≤ 4096 →
      (if replicate then replicate_file else download_file) int_of_str loads own
        ((message ++ head) :: sock_file)
      = Ok (Written (concat sock_file) (Ok tt)) ∧
      content = head ++ concat sock_file.
Proof.
  intros response meta Hrequest Hname Hshared Hsize Hline Hloads.
  destruct (handle_client_sends now t peer_id client name shared chunk_size conn rest
              content replicate Hrequest Hname Hshared Hsize) as (chunks & Hsent & Hcat).
  eexists _, _. split; [exact Hsent|].
  intros head sock_file Hfile Hsplit Hfit.
  rewrite Hcat in Hsplit. split; [|done].
  assert (Hread : receive_line [] ((serialize dumps meta ++ head) :: sock_file)
                  = Line (dumps (JObj meta)) sock_file).
  { unfold serialize in *. rewrite <- app_assoc in *. simpl in *.
    by apply receive_line_drops_rest. }
  assert (Hfetch : fetch int_of_str loads response own
                     ((serialize dumps meta ++ head) :: sock_file)
                   = Ok (Written (concat sock_file) (Ok tt))).
  { rewrite (fetch_metadata response own now (JStr peer_id) (JStr name)
               (Z.of_nat (length content)) chunk_size _ _ sock_file Hread Hloads).
    rewrite receive_file_all; [done..|].
    rewrite Hsplit, length_app. lia. }
  by destruct replicate.
Qed.

(** X28.  Asking a peer for a file it does not share ends in a
    [RuntimeError] and writes nothing.  The peer answers an obtain or a
    replicate request for a name that is no regular file of its shared
    directory with one "file_not_found" message of the matching response
    type and no file bytes, and [download_file] and [replicate_file]
    raise [RuntimeError] on it before they open the destination, whatever
    the segments are in which the answer arrives. *)
Theorem fetch_file_not_found (replicate : bool) (now t : Z)
    (peer_id client name : string) (shared : string -> option bytes)
    (chunk_size own : Z) (conn rest : list bytes) :
  let response := if replicate then "REPLICATE_RESPONSE" else "OBTAIN_RESPONSE" in
  let answer := create_message now response (file_not_found (JStr name)) (JStr peer_id) in
  receive_message loads conn
  = Message (JObj ((if replicate then make_replicate_request else make_obtain_request)
                     t client name)) rest →
  name ≠ "" →
  shared name = None →
  newline ∉ dumps (JObj answer) →
  loads (dumps (JObj answer)) = Some (JObj answer) →
  handle_client loads dumps py_str now peer_id shared chunk_size conn
  = Ok [serialize dumps answer] ∧
  ∀ sock,
    Forall (fun segment => segment ≠ []) sock →
    concat sock = serialize dumps answer →
    (if replicate then replicate_file else download_file) int_of_str loads own sock
    = Ok RuntimeError.
Proof.
  intros response answer Hrequest Hname Hshared Hline Hloads.
  rewrite (handle_client_request now t peer_id client name shared chunk_size conn rest
             replicate Hrequest Hname), Hshared.
  split; [done|]. intros sock Hsock Hstream.
  destruct (receive_line_first (dumps (JObj answer)) [] sock Hsock Hline Hstream)
    as (dropped & sock' & Hread & _ & _).
  assert (Hfetch : fetch int_of_str loads response own sock = Ok RuntimeError).
  { by apply (fetch_error response own now (JStr peer_id) (file_not_found (JStr name))
                (dumps (JObj answer)) sock sock'). }
  by destruct replicate.
Qed.
End PeerFacts.

Lemma fetch_receives_suffix_witness :
  let meta := create_message 2 "OBTAIN_RESPONSE" (file_metadata (JStr "a.txt") 5 2)
                (JStr "peer1") in
  let loads := sample_loads "a.txt" meta in
  receive_message loads sample_conn
  = Message (JObj (make_obtain_request 1 "peer2" "a.txt")) [] ∧
  shared_a "a.txt" = Some hello ∧
  (newline ∉ sample_dumps (JObj meta)) ∧
  loads (sample_dumps (JObj meta)) = Some (JObj meta) ∧
  ∃ sent,
    handle_client loads sample_dumps (fun _ => "") 2 "peer1" shared_a 2 sample_conn
    = Ok sent ∧
    ∀ sock,
      Forall (fun segment : bytes => segment ≠ []) sock →
      concat sock = concat sent →
      ∃ dropped file,
        download_file decimal loads 7 sock = Ok (Written file (Ok tt)) ∧
        hello = dropped ++ file.
Proof.
  intros meta loads.
  assert (Hrequest : receive_message loads sample_conn
                     = Message (JObj (make_obtain_request 1 "peer2" "a.txt")) [])
    by reflexivity.
  assert (Hshared : shared_a "a.txt" = Some hello) by reflexivity.
  assert (Hline : newline ∉ sample_dumps (JObj meta))
    by (simpl; rewrite list_elem_of_singleton; discriminate).
  assert (Hloads : loads (sample_dumps (JObj meta)) = Some (JObj meta)) by reflexivity.
  split; [exact Hrequest|]. split; [exact Hshared|]. split; [exact Hline|].
  split; [exact Hloads|].
  apply (fetch_receives_suffix decimal loads sample_dumps (fun _ => "") false 2 1
           "peer1" "peer2" "a.txt" shared_a 2 7 sample_conn [] hello
           Hrequest ltac:(discriminate) Hshared ltac:(lia) Hline Hloads).
Defined.

Lemma fetch_exact_after_metadata_witness :
  let meta := create_message 2 "REPLICATE_RESPONSE" (file_metadata (JStr "a.txt") 5 2)
                (JStr "peer1") in
  let loads (line : bytes) :=
    match line with
    | [b] => if Byte.eqb b Byte.x71
             then Some (JObj (make_replicate_request 1 "peer2" "a.txt"))
             else Some (JObj meta)
    | _ => None
    end in
  receive_message loads sample_conn
  = Message (JObj (make_replicate_request 1 "peer2" "a.txt")) [] ∧
  shared_a "a.txt" = Some hello ∧
  (newline ∉ sample_dumps (JObj meta)) ∧
  loads (sample_dumps (JObj meta)) = Some (JObj meta) ∧
  ∃ message chunks,
    handle_client loads sample_dumps (fun _ => "") 2 "peer1" shared_a 2 sample_conn
    = Ok (message :: chunks) ∧
    ∀ sock_message sock_file,
      Forall (fun segment : bytes => segment ≠ []) sock_message →
      Forall (fun segment : bytes => segment ≠ []) sock_file →
      concat sock_message = message →
      concat sock_file = concat chunks →
      replicate_file decimal loads 7 (sock_message ++ sock_file)
      = Ok (Written hello (Ok tt)).
Proof.
  intros meta loads.
  assert (Hrequest : receive_message loads sample_conn
                     = Message (JObj (make_replicate_request 1 "peer2" "a.txt")) [])
    by reflexivity.
  assert (Hshared : shared_a "a.txt" = Some hello) by reflexivity.
  assert (Hline : newline ∉ sample_dumps (JObj meta))
    by (simpl; rewrite list_elem_of_singleton; discriminate).
  assert (Hloads : loads (sample_dumps (JObj meta)) = Some (JObj meta)) by reflexivity.
  split; [exact Hrequest|]. split; [exact Hshared|]. split; [exact Hline|].
  split; [exact Hloads|].
  apply (fetch_exact_after_metadata decimal loads sample_dumps (fun _ => "") true 2 1
           "peer1" "peer2" "a.txt" shared_a 2 7 sample_conn [] hello
           Hrequest ltac:(discriminate) Hshared ltac:(lia) Hline Hloads).
Defined.

Lemma fetch_loses_bytes_read_with_metadata_witness :
  let meta := create_message 2 "OBTAIN_RESPONSE" (file_metadata (JStr "a.txt") 5 2)
                (JStr "peer1") in
  let loads := sample_loads "a.txt" meta in
  receive_message loads sample_conn
  = Message (JObj (make_obtain_request 1 "peer2" "a.txt")) [] ∧
  shared_a "a.txt" = Some hello ∧
  (newline ∉ sample_dumps (JObj meta)) ∧
  loads (sample_dumps (JObj meta)) = Some (JObj meta) ∧
  ∃ message chunks,
    handle_client loads sample_dumps (fun _ => "") 2 "peer1" shared_a 2 sample_conn
    = Ok (message :: chunks) ∧
    ∀ head sock_file,
      Forall (fun segment : bytes => segment ≠ []) sock_file →
      concat chunks = head ++ concat sock_file →
      Z.of_nat (length (message ++ head)) ≤ 4096 →
      download_file decimal loads 7 ((message ++ head) :: sock_file)
      = Ok (Written (concat sock_file) (Ok tt)) ∧
      hello = head ++ concat sock_file.
Proof.
  intros meta loads.
  assert (Hrequest : receive_message loads sample_conn
                     = Message (JObj (make_obtain_request 1 "peer2" "a.txt")) [])
    by reflexivity.
  assert (Hshared : shared_a "a.txt" = Some hello) by reflexivity.
  assert (Hline : newline ∉ sample_dumps (JObj meta))
    by (simpl; rewrite list_elem_of_singleton; discriminate).
  assert (Hloads : loads (sample_dumps (JObj meta)) = Some (JObj meta)) by reflexivity.
  split; [exact Hrequest|]. split; [exact Hshared|]. split; [exact Hline|].
  split; [exact Hloads|].
  apply (fetch_loses_bytes_read_with_metadata decimal loads sample_dumps (fun _ => "")
           false 2 1 "peer1" "peer2" "a.txt" shared_a 2 7 sample_conn [] hello
           Hrequest ltac:(discriminate) Hshared ltac:(lia) Hline Hloads).
Defined.

Lemma fetch_file_not_found_witness :
  let answer := create_message 2 "OBTAIN_RESPONSE" (file_not_found (JStr "b.txt"))
                  (JStr "peer1") in
  let loads := sample_loads "b.txt" answer in
  receive_message loads sample_conn
  = Message (JObj (make_obtain_request 1 "peer2" "b.txt")) [] ∧
  shared_a "b.txt" = None ∧
  (newline ∉ sample_dumps (JObj answer)) ∧
  loads (sample_dumps (JObj answer)) = Some (JObj answer) ∧
  handle_client loads sample_dumps (fun _ => "") 2 "peer1" shared_a 2 sample_conn
  = Ok [serialize sample_dumps answer] ∧
  ∀ sock,
    Forall (fun segment : bytes => segment ≠ []) sock →
    concat sock = serialize sample_dumps answer →
    download_file decimal loads 7 sock = Ok RuntimeError.
Proof.
  intros answer loads.
  assert (Hrequest : receive_message loads sample_conn
                     = Message (JObj (make_obtain_request 1 "peer2" "b.txt")) [])
    by reflexivity.
  assert (Hshared : shared_a "b.txt" = None) by reflexivity.
  assert (Hline : newline ∉ sample_dumps (JObj answer))
    by (simpl; rewrite list_elem_of_singleton; discriminate).
  assert (Hloads : loads (sample_dumps (JObj answer)) = Some (JObj answer)) by reflexivity.
  split; [exact Hrequest|]. split; [exact Hshared|]. split; [exact Hline|].
  split; [exact Hloads|].
  apply (fetch_file_not_found decimal loads sample_dumps (fun _ => "") false 2 1
           "peer1" "peer2" "b.txt" shared_a 2 7 sample_conn []
           Hrequest ltac:(discriminate) Hshared Hline Hloads).
Defined.

(** * The indexing server on a connection *)

Section ServerFacts.
Variable int_of_str : string -> option Z.
Variable replication_factor : Z.
Variable loads : bytes -> option json.
Variable py_str : json -> string.

Lemma dispatch_reachable (s : FileIndex) (now : Z) (message : json) (addr : string * Z) :
  reachable s →
  reachable (dispatch int_of_str replication_factor py_str s now message addr).1.
Proof.
  intros Hs. unfold dispatch. destruct message as [| | | | |fields]; try done.
  destruct (is_str "REGISTRY_REQUEST" _); [|by destruct (is_str "SEARCH_REQUEST" _)].
  destruct (register_peer_index int_of_str replication_factor s now fields addr)
    as [-> | (pid & info & payload & _ & _ & _ & ->)]; [done|].
  apply (register_files_reachable int_of_str).
  apply (reachable_exec s (AddPeer pid (peer_record_of int_of_str info addr)) Hs).
Qed.

(** One turn of the loop, as the code reads. *)
Lemma handle_connection_turn (s : FileIndex) (now : nat -> Z) (turn : nat)
    (addr : string * Z) (conn : list bytes) :
  handle_connection int_of_str replication_factor loads py_str s now turn addr conn
  = match receive_message loads conn with
    | MessageError | RecvError _ => mk_session s [] (Ok tt)
    | Message message conn' =>
        match dispatch int_of_str replication_factor py_str s (now turn) message addr with
        | (s', Ok response) =>
            let rest := handle_connection int_of_str replication_factor loads py_str
                          s' now (S turn) addr conn' in
            mk_session (index rest) (response :: responses rest) (ending rest)
        | (s', Raise e) => mk_session s' [] (Raise e)
        | (s', Untyped) => mk_session s' [] Untyped
        end
    end.
Proof.
  funelim (handle_connection int_of_str replication_factor loads py_str s now turn addr conn).
  all: match goal with
       | Hr : receive_message _ _ = _ |- _ => rewrite Hr
       end.
  all: try done.
  all: match goal with
       | Hd : dispatch _ _ _ _ _ _ _ = _ |- _ => by rewrite Hd
       end.
Qed.

(** X29.  Nothing that arrives on a connection takes the index out of the
    states that the index operations build: whatever the bytes, however
    they are cut into segments and however the session ends, the index
    that [handle_client] leaves is built by calls of [add_peer],
    [add_file], [remove_file] and [remove_peer], so it has no empty
    serving list and no peer twice in a list. *)
Theorem handle_connection_reachable (s : FileIndex) (now : nat -> Z) (turn : nat)
    (addr : string * Z) (conn : list bytes) :
  reachable s →
  reachable (index (handle_connection int_of_str replication_factor loads py_str
                      s now turn addr conn)).
Proof.
  funelim (handle_connection int_of_str replication_factor loads py_str s now turn addr conn);
    intros Hs; simpl; try done.
  all: match goal with
       | Hd : dispatch _ _ _ ?s0 ?t ?m ?a = _ |- _ =>
           pose proof (dispatch_reachable s0 t m a Hs) as Hnext; rewrite Hd in Hnext
       end.
  all: try done.
  match goal with IH : reachable _ → _ |- _ => by apply IH end.
Qed.

(** X30.  What follows a request in its segment is never read.  When a
    line, its newline and further bytes arrive in one segment of at most
    4096 bytes, the session goes as if the segment had ended at the
    newline: a second request sent in the same segment gets no answer. *)
Theorem handle_connection_ignores_rest_of_segment (s : FileIndex) (now : nat -> Z)
    (turn : nat) (addr : string * Z) (line extra : bytes) (conn : list bytes) :
  newline ∉ line →
  Z.of_nat (length (line ++ newline :: extra)) ≤ 4096 →
  handle_connection int_of_str replication_factor loads py_str s now turn addr
    ((line ++ newline :: extra) :: conn)
  = handle_connection int_of_str replication_factor loads py_str s now turn addr
      ((line ++ [newline]) :: conn).
Proof.
  intros Hline Hfit.
  assert (Hshort : Z.of_nat (length (line ++ [newline])) ≤ 4096).
  { rewrite length_app in *. simpl in *. lia. }
  rewrite !handle_connection_turn. unfold receive_message.
  by rewrite !receive_line_drops_rest.
Qed.
End ServerFacts.

Lemma handle_connection_reachable_witness :
  let loads (line : bytes) :=
    Some (JObj (registry_request 0 "peer1" (JObj [("f.bin", JObj [])]) "127.0.0.1" 7100)) in
  reachable init ∧
  reachable (index (handle_connection decimal 2 loads (fun _ => "") init (fun _ => 0) 0
                      ("127.0.0.1", 50000) sample_conn)).
Proof.
  intros loads.
  assert (Hinit : reachable init) by apply reachable_init.
  split; [exact Hinit|].
  exact (handle_connection_reachable decimal 2 loads (fun _ => "") init (fun _ => 0) 0
           ("127.0.0.1", 50000) sample_conn Hinit).
Defined.

Lemma handle_connection_ignores_rest_of_segment_witness :
  let loads (line : bytes) :=
    Some (JObj (registry_request 0 "peer1" (JObj [("f.bin", JObj [])]) "127.0.0.1" 7100)) in
  (newline ∉ [Byte.x71]) ∧
  Z.of_nat (length ([Byte.x71] ++ newline :: [Byte.x71; newline])) ≤ 4096 ∧
  handle_connection decimal 2 loads (fun _ => "") init (fun _ => 0) 0 ("127.0.0.1", 50000)
    [[Byte.x71] ++ newline :: [Byte.x71; newline]]
  = handle_connection decimal 2 loads (fun _ => "") init (fun _ => 0) 0 ("127.0.0.1", 50000)
      [[Byte.x71] ++ [newline]].
Proof.
  intros loads.
  assert (Hline : newline ∉ [Byte.x71]) by (rewrite list_elem_of_singleton; discriminate).
  assert (Hfit : Z.of_nat (length ([Byte.x71] ++ newline :: [Byte.x71; newline])) ≤ 4096)
    by (simpl; lia).
  split; [exact Hline|]. split; [exact Hfit|].
  exact (handle_connection_ignores_rest_of_segment decimal 2 loads (fun _ => "") init
           (fun _ => 0) 0 ("127.0.0.1", 50000) [Byte.x71] [Byte.x71; newline] []
           Hline Hfit).
Defined.
